(** * Parallel-C-Viewer: the animation engine of the [Visualizer] component

    This development embeds the per-frame animation logic of
    [components/Visualizer.tsx] (the [animate] callback and the
    play/pause [useEffect]) and checks the properties its specification
    states about the clock, the cycle/phase resolver, the scale/offset
    calculator and the rotation physics.

    Number model.  The component is embedded twice.  In the first
    embedding every TypeScript [number] is a real number of the Standard
    Library ([R]) and the arithmetic is exact: it carries the properties
    that do not depend on rounding (the life cycle, the places where refs
    are written, bounds that hold with a margin).  Module [B64] embeds the
    same code on primitive binary64 floats, the arithmetic the component
    runs in, and carries what the rounded operations do: where a property
    holds in exact arithmetic only, it is stated so and the binary64
    behaviour is given beside it.  [Math.random()] is modelled by passing
    the draws to the frame callback, [performance.now()] and the frame
    time stamp by passing the time stamps, and [Math.cos], which
    ECMAScript leaves implementation-approximated, by a parameter of the
    binary64 frame computations. *)

From Stdlib Require Import Reals Lra Lia ZArith List Bool PrimFloat.
From Stdlib Require FloatOps SpecFloat FloatAxioms.
Import ListNotations.

Open Scope R_scope.

(** ** The JavaScript operators the component uses *)

Module JS.

(** [Math.floor(x)] *)
Definition floor (x : R) : R := IZR (Zfloor x).

(** Rounding toward zero, the quotient underlying the [%] operator. *)
Definition trunc (x : R) : Z :=
  if Rle_dec 0 x then Zfloor x else Zceil x.

(** [x % y]: the remainder takes the sign of the dividend. *)
Definition rem (x y : R) : R := x - y * IZR (trunc (x / y)).

(** [x > y], [x < y], [x === y] and [x !== y] as booleans. *)
Definition gtb (x y : R) : bool := if Rlt_dec y x then true else false.
Definition ltb (x y : R) : bool := if Rlt_dec x y then true else false.
Definition eqb (x y : R) : bool := if Req_dec_T x y then true else false.
Definition neqb (x y : R) : bool := negb (eqb x y).

End JS.

(** ** Props, refs and rendered state of [Visualizer] *)

Record VisualizerProps : Type := mkProps {
  isPlaying : bool;
  speed : R;
  endSizePct : R;
  separation : R;
  rotationSpeed : R;
  phaseInterval : R
}.

Inductive PhaseMode : Type := parallel | global.

(** The refs ([useRef]) and the rendered values ([useState]) of one
    component instance.  [requestRef] keeps only what the component uses
    the handle for: whether the requested animation frame is still pending
    ([requestAnimationFrame] sets it, [cancelAnimationFrame] clears it). *)
Record State : Type := mkState {
  requestRef : bool;
  startTimeRef : option R;
  pausedTimeRef : R;
  lastFrameTimeRef : R;
  currentRotationRef : R;
  targetDirectionRef : R;
  smoothedDirectionRef : R;
  nextDirectionChangeTimeRef : R;
  scale : R;
  rotation : R;
  offsetX : R;
  phaseMode : PhaseMode
}.

(** Landolt C geometry constant and the scale calculations of the
    component body. *)
Definition R_OUT : R := 100.

Definition maxScale (p : VisualizerProps) : R := separation p / (2 * R_OUT).
Definition minScale (p : VisualizerProps) : R := maxScale p * endSizePct p.
Definition baseOffset (p : VisualizerProps) : R := (separation p / 2) + 0.5.

(** The oscillation both frame computations apply to the cycle position
    [t] (their [phase]): [(Math.cos(t * Math.PI * 2) + 1) / 2]. *)
Definition oscillation (t : R) : R := (cos (t * PI * 2) + 1) / 2.

(** The frame delta of [animate]: [lastFrameTimeRef] is seeded with the
    frame's own time stamp while it still holds its initial value 0, then
    [dt = time - lastFrameTimeRef.current]. *)
Definition dt (time : R) (s : State) : R :=
  let lastFrameTime :=
    if JS.eqb (lastFrameTimeRef s) 0 then time else lastFrameTimeRef s in
  time - lastFrameTime.

(** [animate(time)]: one frame of the running loop.  [rnd1] and [rnd2] are
    the two [Math.random()] draws of the direction re-roll. *)
Definition animate (p : VisualizerProps) (time rnd1 rnd2 : R) (s : State)
  : State :=
  let startTime :=
    match startTimeRef s with None => time | Some t0 => t0 end in
  let dt := dt time s in
  let elapsedTotal := time - startTime in
  let cycleDuration := 4000 / speed p in
  let cycleCount := JS.floor (elapsedTotal / cycleDuration) in
  let phaseGroup := JS.floor (cycleCount / phaseInterval p) in
  let isGlobalPhase := JS.neqb (JS.rem phaseGroup 2) 0 in
  let currentMode := if isGlobalPhase then global else parallel in
  let t := JS.rem elapsedTotal cycleDuration / cycleDuration in
  let phase := oscillation t in
  let currentScale := minScale p + (maxScale p - minScale p) * phase in
  let currentOffset :=
    if isGlobalPhase
    then baseOffset p * (currentScale / maxScale p)
    else baseOffset p in
  let reroll := JS.gtb time (nextDirectionChangeTimeRef s) in
  let targetDirection :=
    if reroll then (if JS.gtb rnd1 0.5 then 1 else -1)
    else targetDirectionRef s in
  let nextDirectionChangeTime :=
    if reroll then time + 2000 + rnd2 * 4000
    else nextDirectionChangeTimeRef s in
  let lerpFactor := 0.02 in
  let smoothedDirection :=
    smoothedDirectionRef s
    + (targetDirection - smoothedDirectionRef s) * lerpFactor in
  let baseSpeedMs := (rotationSpeed p * 90) / 1000 in
  let deltaRotation := baseSpeedMs * smoothedDirection * dt in
  let currentRotation :=
    JS.rem (currentRotationRef s + deltaRotation) 360 in
  let rotating := JS.gtb (rotationSpeed p) 0 in
  {| requestRef := true;
     startTimeRef := Some startTime;
     pausedTimeRef := pausedTimeRef s;
     lastFrameTimeRef := time;
     currentRotationRef :=
       if rotating then currentRotation else currentRotationRef s;
     targetDirectionRef :=
       if rotating then targetDirection else targetDirectionRef s;
     smoothedDirectionRef :=
       if rotating then smoothedDirection else smoothedDirectionRef s;
     nextDirectionChangeTimeRef :=
       if rotating then nextDirectionChangeTime
       else nextDirectionChangeTimeRef s;
     scale := currentScale;
     rotation :=
       if rotating then currentRotation else currentRotationRef s;
     offsetX := currentOffset;
     phaseMode := currentMode |}.

(** The cleanup returned by the effect: cancel the pending frame. *)
Definition cleanup (s : State) : State :=
  {| requestRef := false;
     startTimeRef := startTimeRef s;
     pausedTimeRef := pausedTimeRef s;
     lastFrameTimeRef := lastFrameTimeRef s;
     currentRotationRef := currentRotationRef s;
     targetDirectionRef := targetDirectionRef s;
     smoothedDirectionRef := smoothedDirectionRef s;
     nextDirectionChangeTimeRef := nextDirectionChangeTimeRef s;
     scale := scale s;
     rotation := rotation s;
     offsetX := offsetX s;
     phaseMode := phaseMode s |}.

(** The body of the [useEffect]; [now] is the value of
    [performance.now()].  Both branches of the test on [startTimeRef] in
    the playing path assign the same value, as in the source. *)
Definition effect (p : VisualizerProps) (now : R) (s : State) : State :=
  if isPlaying p then
    let startTime :=
      match startTimeRef s with
      | None => now - pausedTimeRef s
      | Some _ => now - pausedTimeRef s
      end in
    {| requestRef := true;
       startTimeRef := Some startTime;
       pausedTimeRef := pausedTimeRef s;
       lastFrameTimeRef := now;
       currentRotationRef := currentRotationRef s;
       targetDirectionRef := targetDirectionRef s;
       smoothedDirectionRef := smoothedDirectionRef s;
       nextDirectionChangeTimeRef :=
         if JS.ltb (nextDirectionChangeTimeRef s) now
         then now + 1000
         else nextDirectionChangeTimeRef s;
       scale := scale s;
       rotation := rotation s;
       offsetX := offsetX s;
       phaseMode := phaseMode s |}
  else
    let pausedTime :=
      match startTimeRef s with
      | Some t0 => now - t0
      | None => pausedTimeRef s
      end in
    let cycleDuration := 4000 / speed p in
    let cycleCount := JS.floor (pausedTime / cycleDuration) in
    let phaseGroup := JS.floor (cycleCount / phaseInterval p) in
    let isGlobalPhase := JS.neqb (JS.rem phaseGroup 2) 0 in
    let t := JS.rem pausedTime cycleDuration / cycleDuration in
    let phase := oscillation t in
    let currentScale := minScale p + (maxScale p - minScale p) * phase in
    let currentOffset :=
      if isGlobalPhase
      then baseOffset p * (currentScale / maxScale p)
      else baseOffset p in
    {| requestRef := false;
       startTimeRef := None;
       pausedTimeRef := pausedTime;
       lastFrameTimeRef := lastFrameTimeRef s;
       currentRotationRef := currentRotationRef s;
       targetDirectionRef := targetDirectionRef s;
       smoothedDirectionRef := smoothedDirectionRef s;
       nextDirectionChangeTimeRef := nextDirectionChangeTimeRef s;
       scale := currentScale;
       rotation := rotation s;
       offsetX := currentOffset;
       phaseMode := if isGlobalPhase then global else parallel |}.

(** ** The component instance and its life cycle *)

(** Values of the refs and of the rendered state at the first render. *)
Definition initial (p : VisualizerProps) : State :=
  {| requestRef := false;
     startTimeRef := None;
     pausedTimeRef := 0;
     lastFrameTimeRef := 0;
     currentRotationRef := 0;
     targetDirectionRef := 1;
     smoothedDirectionRef := 0;
     nextDirectionChangeTimeRef := 0;
     scale := maxScale p;
     rotation := 0;
     offsetX := baseOffset p;
     phaseMode := parallel |}.

Record Component : Type := mkComponent {
  props : VisualizerProps;
  refs : State
}.

(** The dependency list of the effect:
    [[isPlaying, speed, endSizePct, separation, rotationSpeed, phaseInterval]]. *)
Definition depsChanged (p q : VisualizerProps) : bool :=
  negb (Bool.eqb (isPlaying p) (isPlaying q))
  || JS.neqb (speed p) (speed q)
  || JS.neqb (endSizePct p) (endSizePct q)
  || JS.neqb (separation p) (separation q)
  || JS.neqb (rotationSpeed p) (rotationSpeed q)
  || JS.neqb (phaseInterval p) (phaseInterval q).

(** First render: the effect runs once on the initial refs. *)
Definition mount (p : VisualizerProps) (now : R) : Component :=
  {| props := p; refs := effect p now (initial p) |}.

(** A later render with props [p]: when a dependency changed, the cleanup
    of the previous effect runs, then the effect with the new props. *)
Definition rerender (p : VisualizerProps) (now : R) (c : Component)
  : Component :=
  if depsChanged (props c) p
  then {| props := p; refs := effect p now (cleanup (refs c)) |}
  else {| props := p; refs := refs c |}.

(** The display refresh: the pending callback, if any, runs [animate] with
    the props of the render that scheduled it. *)
Definition frame (time rnd1 rnd2 : R) (c : Component) : Component :=
  if requestRef (refs c)
  then {| props := props c; refs := animate (props c) time rnd1 rnd2 (refs c) |}
  else c.

Inductive Event : Type :=
| Render (p : VisualizerProps) (now : R)
| Frame (time rnd1 rnd2 : R).

Definition step (c : Component) (e : Event) : Component :=
  match e with
  | Render p now => rerender p now c
  | Frame time rnd1 rnd2 => frame time rnd1 rnd2 c
  end.

Definition run (c : Component) (es : list Event) : Component :=
  fold_left step es c.

(** The states the component can be in: mounted, then any events. *)
Inductive reachable : Component -> Prop :=
| reach_mount p now : reachable (mount p now)
| reach_step c e : reachable c -> reachable (step c e).

(** ** The clock *)

(** Elapsed active time at wall-clock time [now]: [time - startTimeRef]
    while the clock runs (the [elapsedTotal] of [animate]), the frozen
    [pausedTimeRef] while it is stopped (what the paused frame is computed
    from). *)
Definition elapsedActiveTime (now : R) (s : State) : R :=
  match startTimeRef s with
  | Some t0 => now - t0
  | None => pausedTimeRef s
  end.

Definition withPlaying (b : bool) (p : VisualizerProps) : VisualizerProps :=
  {| isPlaying := b;
     speed := speed p;
     endSizePct := endSizePct p;
     separation := separation p;
     rotationSpeed := rotationSpeed p;
     phaseInterval := phaseInterval p |}.

Definition withSpeed (v : R) (p : VisualizerProps) : VisualizerProps :=
  {| isPlaying := isPlaying p;
     speed := v;
     endSizePct := endSizePct p;
     separation := separation p;
     rotationSpeed := rotationSpeed p;
     phaseInterval := phaseInterval p |}.

(** The props [App] starts with. *)
Definition appDefaults : VisualizerProps :=
  {| isPlaying := false;
     speed := 0.5;
     endSizePct := 0.4;
     separation := 1000;
     rotationSpeed := 0.5;
     phaseInterval := 3 |}.

(** One pause/resume cycle: play at [resumeAt], some frames, pause at
    [pauseAt]. *)
Record Cycle : Type := mkCycle {
  resumeAt : R;
  frames : list (R * R * R);
  pauseAt : R
}.

Definition cycleEvents (p : VisualizerProps) (cy : Cycle) : list Event :=
  Render (withPlaying true p) (resumeAt cy)
  :: map (fun '(time, rnd1, rnd2) => Frame time rnd1 rnd2) (frames cy)
  ++ [Render (withPlaying false p) (pauseAt cy)].

Definition runCycles (c : Component) (cys : list Cycle) : Component :=
  fold_left (fun c cy => run c (cycleEvents (props c) cy)) cys c.

(** Sum of the active intervals of a list of cycles. *)
Fixpoint activeTime (cys : list Cycle) : R :=
  match cys with
  | [] => 0
  | cy :: rest => (pauseAt cy - resumeAt cy) + activeTime rest
  end.

(** ** Example components, the specification's resolver and offset law,
    and the invariant of the rotation refs *)

(** The running component used below: mounted paused with the defaults of
    [App], played at 1000 ms, one frame at 2000 ms. *)
Definition runningExample : Component :=
  run (mount appDefaults 10)
      [Render (withPlaying true appDefaults) 1000; Frame 2000 0.25 0.5].

(** The resolver as the specification words it, on integers:
    [cycleDuration = 4000/S], [cycleCount = floor(E / cycleDuration)],
    [phaseGroup = floor(cycleCount / P)], Global iff [phaseGroup] is odd. *)
Definition spec_phaseMode (E S : R) (P : Z) : PhaseMode :=
  let cycleDuration := 4000 / S in
  let cycleCount := Zfloor (E / cycleDuration) in
  let phaseGroup := Zfloor (IZR cycleCount / IZR P) in
  if Z.odd phaseGroup then global else parallel.

(** The offset law of the specification for one computed frame [s] under
    props [p]: constant in Parallel mode, proportional to the scale in
    Global mode. *)
Definition OffsetLaw (p : VisualizerProps) (s : State) : Prop :=
  (phaseMode s = parallel -> offsetX s = baseOffset p)
  /\ (phaseMode s = global ->
      offsetX s = baseOffset p * (scale s / maxScale p))
  /\ (phaseMode s = global -> 0 < separation p ->
      scale s = maxScale p -> offsetX s = baseOffset p)
  /\ (phaseMode s = global ->
      offsetX s = baseOffset p / maxScale p * scale s).

(** The invariant of the rotation refs. *)
Definition RotationInv (s : State) : Prop :=
  (targetDirectionRef s = 1 \/ targetDirectionRef s = -1)
  /\ -1 <= smoothedDirectionRef s <= 1
  /\ Rabs (currentRotationRef s) < 360
  /\ rotation s = currentRotationRef s.

(** A run of frames with no render in between. *)
Definition frameEvents (fs : list (R * R * R)) : list Event :=
  map (fun '(time, rnd1, rnd2) => Frame time rnd1 rnd2) fs.

(** A reachable state with a negative angle: play at 1000 ms, then one
    frame at 2500 ms whose direction re-roll draws 0.25, hence -1. *)
Definition negativeExample : Component :=
  run (mount appDefaults 10)
      [Render (withPlaying true appDefaults) 1000; Frame 2500 0.25 0.5].

(** ** Predicates on components and events *)

(** What the effect and the frame loop keep true of a component: a frame
    is pending exactly while [isPlaying], and [startTimeRef] is set exactly
    while [isPlaying]. *)
Definition LifecycleInv (c : Component) : Prop :=
  requestRef (refs c) = isPlaying (props c)
  /\ (isPlaying (props c) = true -> exists t0, startTimeRef (refs c) = Some t0)
  /\ (isPlaying (props c) = false -> startTimeRef (refs c) = None).

(** Events that do not start playback: frames, and renders with
    [isPlaying = false]. *)
Definition keepsPaused (e : Event) : Prop :=
  match e with
  | Render p _ => isPlaying p = false
  | Frame _ _ _ => True
  end.

(** ** The [App] component: play/pause and the fading user interface *)

Module App.

(** The state of [App] ([useState], [useRef]), the [showSettings] state of
    its [Controls] child, and what the browser holds for it: the pending
    timeouts (handle and due time), the handle the next [setTimeout]
    returns, and whether [showUi] is registered as mousemove listener. *)
Record State : Type := mkApp {
  isPlaying : bool;
  speed : R;
  separation : R;
  endSizePct : R;
  rotationSpeed : R;
  phaseInterval : R;
  isUiVisible : bool;
  showSettings : bool;
  uiTimeoutRef : nat;
  timers : list (nat * R);
  nextTimer : nat;
  listening : bool
}.

Definition initial : State :=
  {| isPlaying := false;
     speed := 0.5;
     separation := 1000;
     endSizePct := 0.4;
     rotationSpeed := 0.5;
     phaseInterval := 3;
     isUiVisible := true;
     showSettings := false;
     uiTimeoutRef := 0;
     timers := [];
     nextTimer := 1;
     listening := false |}.

(** The props [App] hands to [Visualizer]. *)
Definition visualizerProps (a : State) : VisualizerProps :=
  mkProps (isPlaying a) (speed a) (endSizePct a) (separation a)
          (rotationSpeed a) (phaseInterval a).

(** The class decisions of the render: the cursor is hidden with
    [isPlaying && !isUiVisible]; the controls fade out, and stop taking
    pointer events, unless [visible || showSettings]. *)
Definition cursorNone (a : State) : bool := isPlaying a && negb (isUiVisible a).
Definition controlsShown (a : State) : bool := isUiVisible a || showSettings a.

Definition setTimers (ts : list (nat * R)) (a : State) : State :=
  mkApp (isPlaying a) (speed a) (separation a) (endSizePct a)
        (rotationSpeed a) (phaseInterval a) (isUiVisible a) (showSettings a)
        (uiTimeoutRef a) ts (nextTimer a) (listening a).

Definition setIsUiVisible (b : bool) (a : State) : State :=
  mkApp (isPlaying a) (speed a) (separation a) (endSizePct a)
        (rotationSpeed a) (phaseInterval a) b (showSettings a)
        (uiTimeoutRef a) (timers a) (nextTimer a) (listening a).

Definition setShowSettings (b : bool) (a : State) : State :=
  mkApp (isPlaying a) (speed a) (separation a) (endSizePct a)
        (rotationSpeed a) (phaseInterval a) (isUiVisible a) b
        (uiTimeoutRef a) (timers a) (nextTimer a) (listening a).

Definition setListening (b : bool) (a : State) : State :=
  mkApp (isPlaying a) (speed a) (separation a) (endSizePct a)
        (rotationSpeed a) (phaseInterval a) (isUiVisible a) (showSettings a)
        (uiTimeoutRef a) (timers a) (nextTimer a) b.

Definition withIsPlaying (b : bool) (a : State) : State :=
  mkApp b (speed a) (separation a) (endSizePct a)
        (rotationSpeed a) (phaseInterval a) (isUiVisible a) (showSettings a)
        (uiTimeoutRef a) (timers a) (nextTimer a) (listening a).

(** [if (uiTimeoutRef.current) window.clearTimeout(uiTimeoutRef.current)] *)
Definition clearUiTimeout (a : State) : State :=
  if Nat.eqb (uiTimeoutRef a) 0 then a
  else setTimers
         (filter (fun t => negb (Nat.eqb (fst t) (uiTimeoutRef a))) (timers a))
         a.

(** [uiTimeoutRef.current = window.setTimeout(() => setIsUiVisible(false), 2000)] *)
Definition setUiTimeout (now : R) (a : State) : State :=
  mkApp (isPlaying a) (speed a) (separation a) (endSizePct a)
        (rotationSpeed a) (phaseInterval a) (isUiVisible a) (showSettings a)
        (nextTimer a) ((nextTimer a, now + 2000) :: timers a)
        (S (nextTimer a)) (listening a).

(** [showUi], with the [isPlaying] of the render that created it. *)
Definition showUi (playing : bool) (now : R) (a : State) : State :=
  let a1 := clearUiTimeout (setIsUiVisible true a) in
  if playing then setUiTimeout now a1 else a1.

(** The body of the visibility effect (dependency [isPlaying]) and the
    cleanup its playing branch returns. *)
Definition uiEffect (now : R) (a : State) : State :=
  if negb (isPlaying a)
  then setIsUiVisible true (clearUiTimeout a)
  else showUi (isPlaying a) now (setListening true a).

Definition uiCleanup (a : State) : State :=
  clearUiTimeout (setListening false a).

(** A state update of [isPlaying] to [b]: nothing happens when the value is
    the current one; otherwise the component renders again, the cleanup of
    the playing effect runs if that was the previous one, and the effect
    runs. *)
Definition setIsPlaying (b : bool) (now : R) (a : State) : State :=
  if Bool.eqb b (isPlaying a) then a
  else uiEffect now
         (withIsPlaying b (if isPlaying a then uiCleanup a else a)).

(** Events.  A click is named by its target; a click inside [Controls]
    bubbles to the [onClick] of the enclosing [div] of [App], whose handler
    [handleBackgroundClick] runs after the target's own handler, both
    updates being applied in order before the next render. *)
Inductive Event : Type :=
| KeyDown (space : bool) (now : R)
| ClickBackground (now : R)
| ClickPlayButton (now : R)
| ClickSettingsButton (now : R)
| ClickCloseSettings (now : R)
| MouseMove (now : R)
| Timeout (handle : nat) (now : R).

Definition step (a : State) (e : Event) : State :=
  match e with
  | KeyDown space now =>
      if space
      then setIsPlaying (negb (isPlaying a)) now (setIsUiVisible true a)
      else a
  | ClickBackground now => setIsPlaying (negb (isPlaying a)) now a
  | ClickPlayButton now =>
      let requested := negb (isPlaying a) in
      setIsPlaying (negb requested) now a
  | ClickSettingsButton now =>
      setIsPlaying (negb (isPlaying a)) now (setShowSettings true a)
  | ClickCloseSettings now =>
      setIsPlaying (negb (isPlaying a)) now (setShowSettings false a)
  | MouseMove now => if listening a then showUi true now a else a
  | Timeout handle now =>
      match find (fun t => Nat.eqb (fst t) handle) (timers a) with
      | Some (_, due) =>
          if Rle_dec due now
          then setIsUiVisible false
                 (setTimers
                    (filter (fun t => negb (Nat.eqb (fst t) handle)) (timers a))
                    a)
          else a
      | None => a
      end
  end.

Inductive reachable : State -> Prop :=
| reach_initial : reachable initial
| reach_step a e : reachable a -> reachable (step a e).

(** What the handlers keep true. *)
Definition UiInv (a : State) : Prop :=
  (isPlaying a = false ->
     isUiVisible a = true /\ timers a = [] /\ listening a = false)
  /\ (isPlaying a = true -> listening a = true)
  /\ (timers a = []
      \/ exists due,
           timers a = [(uiTimeoutRef a, due)]
           /\ uiTimeoutRef a <> 0%nat
           /\ isUiVisible a = true)
  /\ (uiTimeoutRef a < nextTimer a)%nat.

End App.

(** ** The same component in binary64

    The definitions above read every [number] as an exact real.  The
    module below embeds the same code on primitive binary64 floats, the
    arithmetic the component runs in: every [+], [-], [*] and [/] is the
    rounded IEEE operation, [Math.floor] and [%] are computed exactly from
    the operands as IEEE prescribes, and [Math.cos], which ECMAScript
    leaves implementation-approximated, is a parameter [Math_cos] of the
    frame computations. *)

Module B64.

Definition of_Z (z : Z) : float :=
  if (z <? 0)%Z
  then PrimFloat.opp (PrimFloat.of_uint63 (Uint63Axioms.of_Z (- z)))
  else PrimFloat.of_uint63 (Uint63Axioms.of_Z z).

(** [Math.floor(x)]: the largest integer not above [x]; zeros, infinities
    and NaN are returned as they are. *)
Definition floor (x : float) : float :=
  match FloatOps.Prim2SF x with
  | SpecFloat.S754_finite s m e =>
      if (0 <=? e)%Z then x
      else
        let d := (2 ^ (- e))%Z in
        let q := (Z.pos m / d)%Z in
        if s
        then of_Z (if (Z.pos m mod d =? 0)%Z then - q else - q - 1)%Z
        else of_Z q
  | _ => x
  end.

(** [x % y]: the exact remainder of the truncated division, with the sign
    of the dividend. *)
Definition rem (x y : float) : float :=
  match FloatOps.Prim2SF x, FloatOps.Prim2SF y with
  | SpecFloat.S754_nan, _ => PrimFloat.nan
  | _, SpecFloat.S754_nan => PrimFloat.nan
  | SpecFloat.S754_infinity _, _ => PrimFloat.nan
  | _, SpecFloat.S754_zero _ => PrimFloat.nan
  | SpecFloat.S754_zero _, _ => x
  | SpecFloat.S754_finite _ _ _, SpecFloat.S754_infinity _ => x
  | SpecFloat.S754_finite sx mx ex, SpecFloat.S754_finite _ my ey =>
      let e := Z.min ex ey in
      let r := Z.rem (Z.pos mx * 2 ^ (ex - e)) (Z.pos my * 2 ^ (ey - e)) in
      if (r =? 0)%Z
      then (if sx then PrimFloat.neg_zero else PrimFloat.zero)
      else FloatOps.SF2Prim
             (SpecFloat.binary_normalize FloatOps.prec FloatOps.emax
                (if sx then - r else r)%Z e false)
  end.


Local Open Scope float_scope.

(** [x > y], [x < y], [x === y] and [x !== y]. *)
Definition gtb (x y : float) : bool := PrimFloat.ltb y x.
Definition ltb (x y : float) : bool := PrimFloat.ltb x y.
Definition eqb (x y : float) : bool := PrimFloat.eqb x y.
Definition neqb (x y : float) : bool := negb (PrimFloat.eqb x y).

(** [Math.PI] *)
Definition PI : float := 3.141592653589793.

(** A cosine to run examples with: 24 terms of the cosine series on the
    argument reduced to one period.  ECMAScript fixes [Math.cos(0) = 1] and
    leaves the precision elsewhere to the engine; the statements below hold
    for every cosine, this one only serves to evaluate runs. *)
Fixpoint cosineSeries (n : nat) (k term acc z : float) : float :=
  match n with
  | O => acc
  | S n' =>
      let term' := - (term * z) / ((2 * k + 1) * (2 * k + 2)) in
      cosineSeries n' (k + 1) term' (acc + term') z
  end.

Definition cosine (x : float) : float :=
  let y := rem x (2 * PI) in
  cosineSeries 24 0 1 1 (y * y).

Record Props : Type := mkProps {
  isPlaying : bool;
  speed : float;
  endSizePct : float;
  separation : float;
  rotationSpeed : float;
  phaseInterval : float
}.

Record State : Type := mkState {
  requestRef : bool;
  startTimeRef : option float;
  pausedTimeRef : float;
  lastFrameTimeRef : float;
  currentRotationRef : float;
  targetDirectionRef : float;
  smoothedDirectionRef : float;
  nextDirectionChangeTimeRef : float;
  scale : float;
  rotation : float;
  offsetX : float;
  phaseMode : PhaseMode
}.

Definition R_OUT : float := 100.

Definition maxScale (p : Props) : float := separation p / (2 * R_OUT).
Definition minScale (p : Props) : float := maxScale p * endSizePct p.
Definition baseOffset (p : Props) : float := (separation p / 2) + 0.5.

Definition withPlaying (b : bool) (p : Props) : Props :=
  {| isPlaying := b;
     speed := speed p;
     endSizePct := endSizePct p;
     separation := separation p;
     rotationSpeed := rotationSpeed p;
     phaseInterval := phaseInterval p |}.

(** The props [App] starts with. *)
Definition appDefaults : Props :=
  {| isPlaying := false;
     speed := 0.5;
     endSizePct := 0.4;
     separation := 1000;
     rotationSpeed := 0.5;
     phaseInterval := 3 |}.

Definition dt (time : float) (s : State) : float :=
  let lastFrameTime :=
    if eqb (lastFrameTimeRef s) 0 then time else lastFrameTimeRef s in
  time - lastFrameTime.

Section Frames.

Variable Math_cos : float -> float.

Definition oscillation (t : float) : float := (Math_cos (t * PI * 2) + 1) / 2.

(** [animate(time)], as above. *)
Definition animate (p : Props) (time rnd1 rnd2 : float) (s : State) : State :=
  let startTime :=
    match startTimeRef s with None => time | Some t0 => t0 end in
  let dt := dt time s in
  let elapsedTotal := time - startTime in
  let cycleDuration := 4000 / speed p in
  let cycleCount := floor (elapsedTotal / cycleDuration) in
  let phaseGroup := floor (cycleCount / phaseInterval p) in
  let isGlobalPhase := neqb (rem phaseGroup 2) 0 in
  let currentMode := if isGlobalPhase then global else parallel in
  let t := rem elapsedTotal cycleDuration / cycleDuration in
  let phase := oscillation t in
  let currentScale := minScale p + (maxScale p - minScale p) * phase in
  let currentOffset :=
    if isGlobalPhase
    then baseOffset p * (currentScale / maxScale p)
    else baseOffset p in
  let reroll := gtb time (nextDirectionChangeTimeRef s) in
  let targetDirection :=
    if reroll then (if gtb rnd1 0.5 then 1 else -1)
    else targetDirectionRef s in
  let nextDirectionChangeTime :=
    if reroll then time + 2000 + rnd2 * 4000
    else nextDirectionChangeTimeRef s in
  let lerpFactor := 0.02 in
  let smoothedDirection :=
    smoothedDirectionRef s
    + (targetDirection - smoothedDirectionRef s) * lerpFactor in
  let baseSpeedMs := (rotationSpeed p * 90) / 1000 in
  let deltaRotation := baseSpeedMs * smoothedDirection * dt in
  let currentRotation :=
    rem (currentRotationRef s + deltaRotation) 360 in
  let rotating := gtb (rotationSpeed p) 0 in
  {| requestRef := true;
     startTimeRef := Some startTime;
     pausedTimeRef := pausedTimeRef s;
     lastFrameTimeRef := time;
     currentRotationRef :=
       if rotating then currentRotation else currentRotationRef s;
     targetDirectionRef :=
       if rotating then targetDirection else targetDirectionRef s;
     smoothedDirectionRef :=
       if rotating then smoothedDirection else smoothedDirectionRef s;
     nextDirectionChangeTimeRef :=
       if rotating then nextDirectionChangeTime
       else nextDirectionChangeTimeRef s;
     scale := currentScale;
     rotation :=
       if rotating then currentRotation else currentRotationRef s;
     offsetX := currentOffset;
     phaseMode := currentMode |}.

Definition cleanup (s : State) : State :=
  {| requestRef := false;
     startTimeRef := startTimeRef s;
     pausedTimeRef := pausedTimeRef s;
     lastFrameTimeRef := lastFrameTimeRef s;
     currentRotationRef := currentRotationRef s;
     targetDirectionRef := targetDirectionRef s;
     smoothedDirectionRef := smoothedDirectionRef s;
     nextDirectionChangeTimeRef := nextDirectionChangeTimeRef s;
     scale := scale s;
     rotation := rotation s;
     offsetX := offsetX s;
     phaseMode := phaseMode s |}.

(** The body of the [useEffect], as above. *)
Definition effect (p : Props) (now : float) (s : State) : State :=
  if isPlaying p then
    let startTime :=
      match startTimeRef s with
      | None => now - pausedTimeRef s
      | Some _ => now - pausedTimeRef s
      end in
    {| requestRef := true;
       startTimeRef := Some startTime;
       pausedTimeRef := pausedTimeRef s;
       lastFrameTimeRef := now;
       currentRotationRef := currentRotationRef s;
       targetDirectionRef := targetDirectionRef s;
       smoothedDirectionRef := smoothedDirectionRef s;
       nextDirectionChangeTimeRef :=
         if ltb (nextDirectionChangeTimeRef s) now
         then now + 1000
         else nextDirectionChangeTimeRef s;
       scale := scale s;
       rotation := rotation s;
       offsetX := offsetX s;
       phaseMode := phaseMode s |}
  else
    let pausedTime :=
      match startTimeRef s with
      | Some t0 => now - t0
      | None => pausedTimeRef s
      end in
    let cycleDuration := 4000 / speed p in
    let cycleCount := floor (pausedTime / cycleDuration) in
    let phaseGroup := floor (cycleCount / phaseInterval p) in
    let isGlobalPhase := neqb (rem phaseGroup 2) 0 in
    let t := rem pausedTime cycleDuration / cycleDuration in
    let phase := oscillation t in
    let currentScale := minScale p + (maxScale p - minScale p) * phase in
    let currentOffset :=
      if isGlobalPhase
      then baseOffset p * (currentScale / maxScale p)
      else baseOffset p in
    {| requestRef := false;
       startTimeRef := None;
       pausedTimeRef := pausedTime;
       lastFrameTimeRef := lastFrameTimeRef s;
       currentRotationRef := currentRotationRef s;
       targetDirectionRef := targetDirectionRef s;
       smoothedDirectionRef := smoothedDirectionRef s;
       nextDirectionChangeTimeRef := nextDirectionChangeTimeRef s;
       scale := currentScale;
       rotation := rotation s;
       offsetX := currentOffset;
       phaseMode := if isGlobalPhase then global else parallel |}.

Definition initial (p : Props) : State :=
  {| requestRef := false;
     startTimeRef := None;
     pausedTimeRef := 0;
     lastFrameTimeRef := 0;
     currentRotationRef := 0;
     targetDirectionRef := 1;
     smoothedDirectionRef := 0;
     nextDirectionChangeTimeRef := 0;
     scale := maxScale p;
     rotation := 0;
     offsetX := baseOffset p;
     phaseMode := parallel |}.

Record Component : Type := mkComponent {
  props : Props;
  refs : State
}.

(** The dependency comparison of React is [Object.is]. *)
Definition depsChanged (p q : Props) : bool :=
  negb (Bool.eqb (isPlaying p) (isPlaying q))
  || negb (PrimFloat.Leibniz.eqb (speed p) (speed q))
  || negb (PrimFloat.Leibniz.eqb (endSizePct p) (endSizePct q))
  || negb (PrimFloat.Leibniz.eqb (separation p) (separation q))
  || negb (PrimFloat.Leibniz.eqb (rotationSpeed p) (rotationSpeed q))
  || negb (PrimFloat.Leibniz.eqb (phaseInterval p) (phaseInterval q)).

Definition mount (p : Props) (now : float) : Component :=
  {| props := p; refs := effect p now (initial p) |}.

Definition rerender (p : Props) (now : float) (c : Component) : Component :=
  if depsChanged (props c) p
  then {| props := p; refs := effect p now (cleanup (refs c)) |}
  else {| props := p; refs := refs c |}.

Definition frame (time rnd1 rnd2 : float) (c : Component) : Component :=
  if requestRef (refs c)
  then {| props := props c; refs := animate (props c) time rnd1 rnd2 (refs c) |}
  else c.

Inductive Event : Type :=
| Render (p : Props) (now : float)
| Frame (time rnd1 rnd2 : float).

Definition step (c : Component) (e : Event) : Component :=
  match e with
  | Render p now => rerender p now c
  | Frame time rnd1 rnd2 => frame time rnd1 rnd2 c
  end.

Definition run (c : Component) (es : list Event) : Component :=
  fold_left step es c.

Inductive reachable : Component -> Prop :=
| reach_mount p now : reachable (mount p now)
| reach_step c e : reachable c -> reachable (step c e).

(** One pause/resume cycle and a list of them, as above. *)
Record Cycle : Type := mkCycle {
  resumeAt : float;
  frames : list (float * float * float);
  pauseAt : float
}.

Definition frameEvents (fs : list (float * float * float)) : list Event :=
  map (fun '(time, rnd1, rnd2) => Frame time rnd1 rnd2) fs.

Definition cycleEvents (p : Props) (cy : Cycle) : list Event :=
  Render (withPlaying true p) (resumeAt cy)
  :: frameEvents (frames cy)
  ++ [Render (withPlaying false p) (pauseAt cy)].

Definition runCycles (c : Component) (cys : list Cycle) : Component :=
  fold_left (fun c cy => run c (cycleEvents (props c) cy)) cys c.

(** What the pause/resume cycles make of a frozen elapsed time [p0]: each
    cycle replaces it by [pauseAt - (resumeAt - p0)]. *)
Definition pausedAfter (p0 : float) (cys : list Cycle) : float :=
  fold_left (fun p cy => pauseAt cy - (resumeAt cy - p)) cys p0.


End Frames.

Definition elapsedActiveTime (now : float) (s : State) : float :=
  match startTimeRef s with
  | Some t0 => now - t0
  | None => pausedTimeRef s
  end.

End B64.


(** ** Basic facts about the JavaScript operators *)

Lemma gtb_true (x y : R) : y < x -> JS.gtb x y = true.
Proof. intros H. unfold JS.gtb. destruct (Rlt_dec y x); [reflexivity | contradiction]. Qed.

Lemma gtb_false (x y : R) : x <= y -> JS.gtb x y = false.
Proof. intros H. unfold JS.gtb. destruct (Rlt_dec y x); [lra | reflexivity]. Qed.

Lemma ltb_true (x y : R) : x < y -> JS.ltb x y = true.
Proof. intros H. unfold JS.ltb. destruct (Rlt_dec x y); [reflexivity | contradiction]. Qed.

Lemma ltb_false (x y : R) : y <= x -> JS.ltb x y = false.
Proof. intros H. unfold JS.ltb. destruct (Rlt_dec x y); [lra | reflexivity]. Qed.

Lemma eqb_true (x y : R) : x = y -> JS.eqb x y = true.
Proof. intros H. unfold JS.eqb. destruct (Req_dec_T x y); [reflexivity | contradiction]. Qed.

Lemma eqb_false (x y : R) : x <> y -> JS.eqb x y = false.
Proof. intros H. unfold JS.eqb. destruct (Req_dec_T x y); [contradiction | reflexivity]. Qed.

Lemma neqb_true (x y : R) : x <> y -> JS.neqb x y = true.
Proof. intros H. unfold JS.neqb. now rewrite eqb_false. Qed.

Lemma neqb_false (x y : R) : x = y -> JS.neqb x y = false.
Proof. intros H. unfold JS.neqb. now rewrite eqb_true. Qed.

(** ** The clock: pause, resume and parameter changes *)

Lemma depsChanged_isPlaying (p q : VisualizerProps) :
  isPlaying p <> isPlaying q -> depsChanged p q = true.
Proof.
  intros H. unfold depsChanged.
  destruct (isPlaying p), (isPlaying q); simpl; try reflexivity; congruence.
Qed.

Lemma depsChanged_speed (p q : VisualizerProps) :
  speed p <> speed q -> depsChanged p q = true.
Proof.
  intros H. unfold depsChanged. rewrite (neqb_true _ _ H).
  rewrite orb_true_r. reflexivity.
Qed.

(** Stopping freezes the elapsed time of the instant of the stop. *)
Lemma effect_stop_elapsed (p : VisualizerProps) (t now : R) (s : State) :
  isPlaying p = false ->
  elapsedActiveTime now (effect p t (cleanup s)) = elapsedActiveTime t s.
Proof.
  intros Hp. unfold effect, elapsedActiveTime. rewrite Hp. simpl.
  destruct (startTimeRef s); reflexivity.
Qed.

(** Starting a stopped clock at [t'] resumes from the frozen value. *)
Lemma effect_start_elapsed (p : VisualizerProps) (t' : R) (s : State) :
  isPlaying p = true ->
  elapsedActiveTime t' (effect p t' (cleanup s)) = pausedTimeRef s.
Proof.
  intros Hp. unfold effect, elapsedActiveTime. rewrite Hp. simpl.
  destruct (startTimeRef s); lra.
Qed.

Lemma effect_stop_startTime (p : VisualizerProps) (t : R) (s : State) :
  isPlaying p = false -> startTimeRef (effect p t s) = None.
Proof. intros Hp. unfold effect. rewrite Hp. reflexivity. Qed.

(** A frame leaves a started clock alone. *)
Lemma animate_clock (p : VisualizerProps) (time r1 r2 t0 : R) (s : State) :
  startTimeRef s = Some t0 ->
  startTimeRef (animate p time r1 r2 s) = Some t0
  /\ pausedTimeRef (animate p time r1 r2 s) = pausedTimeRef s
  /\ requestRef (animate p time r1 r2 s) = true.
Proof. intros H. unfold animate. simpl. rewrite H. auto. Qed.

Lemma frames_clock (fs : list (R * R * R)) (c : Component) (t0 : R) :
  startTimeRef (refs c) = Some t0 ->
  requestRef (refs c) = true ->
  let c' := run c (map (fun '(time, rnd1, rnd2) => Frame time rnd1 rnd2) fs) in
  startTimeRef (refs c') = Some t0
  /\ pausedTimeRef (refs c') = pausedTimeRef (refs c)
  /\ requestRef (refs c') = true
  /\ props c' = props c.
Proof.
  revert c. induction fs as [|[[time r1] r2] fs IH]; intros c Hs Hr; simpl.
  - auto.
  - destruct (animate_clock (props c) time r1 r2 t0 (refs c) Hs) as (A & B & C).
    assert (Hf : frame time r1 r2 c
                 = {| props := props c;
                      refs := animate (props c) time r1 r2 (refs c) |}).
    { unfold frame. rewrite Hr. reflexivity. }
    unfold run in IH. specialize (IH (frame time r1 r2 c)).
    rewrite Hf in IH |- *. simpl in IH.
    destruct (IH A C) as (A' & B' & C' & D').
    repeat split; assumption.
Qed.

(** One cycle on a stopped component adds exactly its active interval. *)
Lemma cycle_clock (cy : Cycle) (c : Component) :
  isPlaying (props c) = false ->
  startTimeRef (refs c) = None ->
  let c' := run c (cycleEvents (props c) cy) in
  isPlaying (props c') = false
  /\ startTimeRef (refs c') = None
  /\ pausedTimeRef (refs c')
     = pausedTimeRef (refs c) + (pauseAt cy - resumeAt cy).
Proof.
  intros Hp Hs. unfold cycleEvents, run. simpl fold_left.
  rewrite fold_left_app. simpl.
  set (c1 := rerender (withPlaying true (props c)) (resumeAt cy) c).
  assert (H1 : c1 = {| props := withPlaying true (props c);
                       refs := effect (withPlaying true (props c))
                                 (resumeAt cy) (cleanup (refs c)) |}).
  { unfold c1, rerender. rewrite depsChanged_isPlaying; [reflexivity|].
    simpl. rewrite Hp. discriminate. }
  assert (Hs1 : startTimeRef (refs c1)
                = Some (resumeAt cy - pausedTimeRef (refs c))).
  { rewrite H1. unfold effect. simpl. rewrite Hs. reflexivity. }
  assert (Hr1 : requestRef (refs c1) = true) by (rewrite H1; reflexivity).
  assert (Hq1 : pausedTimeRef (refs c1) = pausedTimeRef (refs c))
    by (rewrite H1; reflexivity).
  destruct (frames_clock (frames cy) c1 _ Hs1 Hr1) as (A & B & C & D).
  unfold run in A, B, C, D.
  set (c2 := fold_left step _ c1) in *.
  unfold rerender. rewrite depsChanged_isPlaying.
  2:{ rewrite D, H1. simpl. discriminate. }
  simpl. unfold effect. simpl. rewrite A. simpl.
  repeat split. lra.
Qed.

Lemma runCycles_clock (cys : list Cycle) (c : Component) :
  isPlaying (props c) = false ->
  startTimeRef (refs c) = None ->
  isPlaying (props (runCycles c cys)) = false
  /\ startTimeRef (refs (runCycles c cys)) = None
  /\ pausedTimeRef (refs (runCycles c cys))
     = pausedTimeRef (refs c) + activeTime cys.
Proof.
  revert c. induction cys as [|cy cys IH]; intros c Hp Hs.
  - simpl. repeat split; try assumption. lra.
  - change (runCycles c (cy :: cys))
      with (runCycles (run c (cycleEvents (props c) cy)) cys).
    destruct (cycle_clock cy c Hp Hs) as (A & B & C).
    destruct (IH _ A B) as (A' & B' & C').
    repeat split; try assumption.
    rewrite C', C. simpl. lra.
Qed.

(** The clock in exact arithmetic.  Stopping the clock at [t] and starting
    it again at any [t']
    leaves the elapsed active time as it was at the stop, from every state
    of the refs; and on a stopped component any sequence of pause/resume
    cycles, each with any frames in between, adds to the elapsed active
    time exactly the sum of the active intervals [pauseAt - resumeAt]:
    the time spent paused is never counted. *)
Lemma exact_pause_resume :
  (forall (p q : VisualizerProps) (t t' : R) (s : State),
      isPlaying p = false ->
      isPlaying q = true ->
      elapsedActiveTime t' (effect q t' (cleanup (effect p t (cleanup s))))
      = elapsedActiveTime t s)
  /\ (forall (cys : list Cycle) (c : Component) (now now' : R),
         isPlaying (props c) = false ->
         startTimeRef (refs c) = None ->
         elapsedActiveTime now' (refs (runCycles c cys))
         = elapsedActiveTime now (refs c) + activeTime cys).
Proof.
  split.
  - intros p q t t' s Hp Hq.
    rewrite (effect_start_elapsed q t' _ Hq).
    unfold effect. rewrite Hp. simpl. unfold elapsedActiveTime.
    destruct (startTimeRef s); reflexivity.
  - intros cys c now now' Hp Hs.
    destruct (runCycles_clock cys c Hp Hs) as (_ & B & C).
    unfold elapsedActiveTime. rewrite B, Hs. exact C.
Qed.

(** What a dependency change does to a running clock: the effect runs
    again in its playing branch and recomputes [startTimeRef] from
    [pausedTimeRef], which still holds the value frozen at the last pause
    (0 before the first one), so the elapsed time falls back to it. *)
Lemma rerender_running_elapsed (p : VisualizerProps) (now : R) (c : Component) :
  isPlaying p = true ->
  depsChanged (props c) p = true ->
  elapsedActiveTime now (refs (rerender p now c)) = pausedTimeRef (refs c).
Proof.
  intros Hp Hd. unfold rerender. rewrite Hd. simpl.
  apply effect_start_elapsed. exact Hp.
Qed.

Lemma runningExample_clock :
  isPlaying (props runningExample) = true
  /\ startTimeRef (refs runningExample) = Some (1000 - 0)
  /\ pausedTimeRef (refs runningExample) = 0.
Proof.
  unfold runningExample, run. simpl fold_left.
  assert (H1 : rerender (withPlaying true appDefaults) 1000 (mount appDefaults 10)
               = {| props := withPlaying true appDefaults;
                    refs := effect (withPlaying true appDefaults) 1000
                              (cleanup (refs (mount appDefaults 10))) |}).
  { unfold rerender. rewrite depsChanged_isPlaying; [reflexivity|].
    simpl. discriminate. }
  rewrite H1. unfold frame. simpl. auto.
Qed.

(** Claim C1, evaluated on the code.  The component runs with 2000 ms of
    elapsed active time at time 3000; changing only [speed] at that instant
    leaves it running with elapsed active time 0. *)
Theorem speed_change_resets_elapsed :
  isPlaying (props runningExample) = true
  /\ elapsedActiveTime 3000 (refs runningExample) = 2000
  /\ elapsedActiveTime 3000
       (refs (rerender (withSpeed 1 (props runningExample)) 3000 runningExample))
     = 0.
Proof.
  destruct runningExample_clock as (Hp & Hs & Hq).
  split; [exact Hp|]. split.
  - unfold elapsedActiveTime. rewrite Hs. lra.
  - rewrite rerender_running_elapsed.
    + exact Hq.
    + simpl. exact Hp.
    + apply depsChanged_speed. simpl.
      replace (speed (props runningExample)) with 0.5.
      * lra.
      * unfold runningExample, run. simpl fold_left.
        unfold rerender. rewrite depsChanged_isPlaying by (simpl; discriminate).
        reflexivity.
Qed.

(** ** The frame delta after a resume *)

Lemma effect_play_lastFrameTime (p : VisualizerProps) (now : R) (s : State) :
  isPlaying p = true -> lastFrameTimeRef (effect p now s) = now.
Proof. intros Hp. unfold effect. rewrite Hp. reflexivity. Qed.

Lemma rerender_play (p : VisualizerProps) (now : R) (c : Component) :
  isPlaying (props c) = false ->
  isPlaying p = true ->
  rerender p now c = {| props := p; refs := effect p now (cleanup (refs c)) |}.
Proof.
  intros Hc Hp. unfold rerender.
  rewrite depsChanged_isPlaying; [reflexivity | congruence].
Qed.

(** Claim C7 as stated fails when the resume happens at time stamp 0:
    [lastFrameTimeRef] is re-seeded to 0, which [animate] takes for the
    unset value, so the first frame at 16 ms gets a delta of 0, not 16. *)
Lemma resume_dt_counterexample :
  ~ (forall (p : VisualizerProps) (now time : R) (c : Component),
        isPlaying (props c) = false ->
        isPlaying p = true ->
        dt time (refs (rerender p now c)) = time - now).
Proof.
  intros H.
  specialize (H (withPlaying true appDefaults) 0 16 (mount appDefaults 0)
                eq_refl eq_refl).
  rewrite rerender_play in H by reflexivity.
  unfold dt in H. simpl in H.
  rewrite eqb_true in H by reflexivity. lra.
Qed.

(** Claim C7, amended.  Every Stopped-to-Running transition at [now]
    re-seeds [lastFrameTimeRef] to [now]; the delta of the first frame
    afterwards is [time - now] when [now] is not 0 and is 0 when [now] is 0;
    in both cases it does not depend on the refs from before the resume, so
    it never spans the paused interval. *)
Theorem resume_reseeds_lastFrameTime
  (p : VisualizerProps) (now time : R) (c : Component) :
  isPlaying (props c) = false ->
  isPlaying p = true ->
  lastFrameTimeRef (refs (rerender p now c)) = now
  /\ (now <> 0 -> dt time (refs (rerender p now c)) = time - now)
  /\ (now = 0 -> dt time (refs (rerender p now c)) = 0)
  /\ (forall c' : Component,
         isPlaying (props c') = false ->
         dt time (refs (rerender p now c')) = dt time (refs (rerender p now c))).
Proof.
  intros Hc Hp. rewrite (rerender_play p now c Hc Hp). simpl.
  assert (Hl := effect_play_lastFrameTime p now (cleanup (refs c)) Hp).
  split; [exact Hl|]. unfold dt. rewrite Hl.
  split; [|split].
  - intros Hn. rewrite eqb_false by exact Hn. reflexivity.
  - intros Hn. rewrite eqb_true by exact Hn. lra.
  - intros c' Hc'. rewrite (rerender_play p now c' Hc' Hp). simpl.
    rewrite (effect_play_lastFrameTime p now (cleanup (refs c')) Hp).
    reflexivity.
Qed.

Lemma resume_reseeds_lastFrameTime_witness :
  let c := mount appDefaults 10 in
  let p := withPlaying true appDefaults in
  lastFrameTimeRef (refs (rerender p 1000 c)) = 1000
  /\ (1000 <> 0 -> dt 1016 (refs (rerender p 1000 c)) = 1016 - 1000)
  /\ (1000 = 0 -> dt 1016 (refs (rerender p 1000 c)) = 0)
  /\ (forall c' : Component,
         isPlaying (props c') = false ->
         dt 1016 (refs (rerender p 1000 c')) = dt 1016 (refs (rerender p 1000 c))).
Proof.
  apply (resume_reseeds_lastFrameTime (withPlaying true appDefaults) 1000 1016
           (mount appDefaults 10)); reflexivity.
Defined.

(** ** The cycle/phase resolver *)

Lemma trunc_IZR (z : Z) : JS.trunc (IZR z) = z.
Proof.
  unfold JS.trunc. destruct (Rle_dec 0 (IZR z)).
  - apply ZfloorZ.
  - unfold Zceil. rewrite ZfloorNZ. lia.
Qed.

(** On an integer, [n % 2 !== 0] says that [n] is odd, whatever its sign. *)
Lemma neqb_rem_2 (z : Z) : JS.neqb (JS.rem (IZR z) 2) 0 = Z.odd z.
Proof.
  destruct (Z.odd z) eqn:Hodd.
  - apply neqb_true. unfold JS.rem. intros H.
    assert (Hz : IZR z = IZR (2 * JS.trunc (IZR z / 2))).
    { rewrite mult_IZR. lra. }
    apply eq_IZR in Hz. rewrite Hz, Z.odd_mul in Hodd. discriminate.
  - apply neqb_false. unfold JS.rem.
    pose proof (Z.div2_odd z) as Hz. rewrite Hodd in Hz.
    change (Z.b2z false) with 0%Z in Hz. rewrite Z.add_0_r in Hz.
    apply (f_equal IZR) in Hz. rewrite mult_IZR in Hz.
    replace (IZR z / 2) with (IZR (Z.div2 z)) by lra.
    rewrite trunc_IZR. lra.
Qed.

Lemma div_bounds (a b c : R) :
  0 < c -> a * c <= b -> b < (a + 1) * c -> a <= b / c < a + 1.
Proof.
  intros Hc Hl Hu.
  assert (Hb : b = b / c * c) by (field; lra).
  split.
  - apply (Rmult_le_reg_r c); [exact Hc | lra].
  - apply (Rmult_lt_reg_r c); [exact Hc | lra].
Qed.

(** The mode of the running frame is the one the specification gives for
    the frame's elapsed time. *)
Lemma animate_phaseMode (p : VisualizerProps) (P : Z) (t0 E r1 r2 : R) (s : State) :
  phaseInterval p = IZR P ->
  startTimeRef s = Some t0 ->
  phaseMode (animate p (t0 + E) r1 r2 s) = spec_phaseMode E (speed p) P.
Proof.
  intros HP Hs. unfold animate, spec_phaseMode. simpl. rewrite Hs, HP.
  replace (t0 + E - t0) with E by ring.
  unfold JS.floor. rewrite neqb_rem_2. reflexivity.
Qed.


(** During the [k]-th block of [P] cycles the mode is Parallel for even
    [k] and Global for odd [k]. *)
Lemma spec_phaseMode_group (E S : R) (P k : Z) :
  0 < S -> (1 <= P)%Z ->
  IZR k * (IZR P * (4000 / S)) <= E < (IZR k + 1) * (IZR P * (4000 / S)) ->
  spec_phaseMode E S P = if Z.odd k then global else parallel.
Proof.
  intros HS HP [Hl Hu]. unfold spec_phaseMode.
  set (cd := 4000 / S) in *.
  assert (Hcd : 0 < cd) by (apply Rdiv_lt_0_compat; lra).
  assert (HPr : 1 <= IZR P) by (apply IZR_le in HP; exact HP).
  pose proof (Zfloor_bound (E / cd)) as [Hf1 Hf2].
  set (cc := Zfloor (E / cd)) in *.
  assert (Hq : IZR k * IZR P <= E / cd < (IZR k + 1) * IZR P).
  { assert (HE : E = E / cd * cd) by (field; lra).
    split.
    - apply (Rmult_le_reg_r cd); [exact Hcd | lra].
    - apply (Rmult_lt_reg_r cd); [exact Hcd | lra]. }
  assert (Hc1 : (k * P <= cc)%Z).
  { apply Zfloor_lub. rewrite mult_IZR. tauto. }
  assert (Hc2 : (cc < (k + 1) * P)%Z).
  { apply lt_IZR. rewrite mult_IZR, plus_IZR. lra. }
  assert (Hg : Zfloor (IZR cc / IZR P) = k).
  { apply Zfloor_eq. apply div_bounds.
    - lra.
    - rewrite <- mult_IZR. apply IZR_le. exact Hc1.
    - replace (IZR k + 1) with (IZR (k + 1)) by (rewrite plus_IZR; reflexivity).
      rewrite <- mult_IZR. apply IZR_lt. exact Hc2. }
  rewrite Hg. reflexivity.
Qed.


(** ** The scale/offset calculator *)

Lemma maxScale_pos (p : VisualizerProps) : 0 < separation p -> 0 < maxScale p.
Proof.
  intros H. unfold maxScale, R_OUT. apply Rdiv_lt_0_compat; lra.
Qed.

Lemma OffsetLaw_intro (p : VisualizerProps) (s : State) (g : bool) :
  phaseMode s = (if g then global else parallel) ->
  offsetX s = (if g then baseOffset p * (scale s / maxScale p)
               else baseOffset p) ->
  OffsetLaw p s.
Proof.
  intros Hm Ho. unfold OffsetLaw. rewrite Hm, Ho.
  destruct g; repeat split; intros; try discriminate; try reflexivity.
  - match goal with H : scale s = _ |- _ => rewrite H end.
    assert (0 < maxScale p) by (apply maxScale_pos; assumption).
    field. lra.
  - unfold Rdiv. ring.
Qed.

(** Claim C4.  The frame computed by a running tick and the static frame
    computed on pause both obey the offset law: in Parallel mode [offsetX]
    is [baseOffset] whatever the scale; in Global mode [offsetX] is
    [baseOffset * (scale / maxScale)], which is [baseOffset] at
    [scale = maxScale] and is linear in the scale with value 0 at scale 0. *)
Theorem offset_follows_phaseMode :
  (forall (p : VisualizerProps) (time rnd1 rnd2 : R) (s : State),
      OffsetLaw p (animate p time rnd1 rnd2 s))
  /\ (forall (p : VisualizerProps) (now : R) (s : State),
         isPlaying p = false -> OffsetLaw p (effect p now s)).
Proof.
  split.
  - intros p time rnd1 rnd2 s.
    apply (OffsetLaw_intro _ _
             (JS.neqb (JS.rem (JS.floor (JS.floor
                ((time - match startTimeRef s with None => time | Some t0 => t0 end)
                 / (4000 / speed p)) / phaseInterval p)) 2) 0));
      unfold animate; simpl;
      destruct (JS.neqb _ 0); reflexivity.
  - intros p now s Hp.
    apply (OffsetLaw_intro _ _
             (JS.neqb (JS.rem (JS.floor (JS.floor
                (match startTimeRef s with Some t0 => now - t0 | None => pausedTimeRef s end
                 / (4000 / speed p)) / phaseInterval p)) 2) 0));
      unfold effect; rewrite Hp; simpl;
      destruct (JS.neqb _ 0); reflexivity.
Qed.



Lemma oscillation_half : oscillation (1 / 2) = 0.
Proof.
  unfold oscillation. replace (1 / 2 * PI * 2) with PI by field.
  rewrite cos_PI. lra.
Qed.







(** Claim C9.  With a separation of 1000, the outer radius 100 and
    [endSizePct = 0.4], the derived constants are [maxScale = 5],
    [minScale = 2] and [baseOffset = 500.5]. *)
Theorem derived_constants (p : VisualizerProps) :
  separation p = 1000 ->
  endSizePct p = 0.4 ->
  R_OUT = 100
  /\ maxScale p = separation p / (2 * R_OUT)
  /\ maxScale p = 5.0
  /\ minScale p = maxScale p * endSizePct p
  /\ minScale p = 2.0
  /\ baseOffset p = separation p / 2 + 0.5
  /\ baseOffset p = 500.5.
Proof.
  intros Hs He. unfold minScale, maxScale, baseOffset, R_OUT.
  rewrite Hs, He. repeat split; lra.
Qed.

Lemma derived_constants_witness :
  maxScale appDefaults = 5.0
  /\ minScale appDefaults = 2.0
  /\ baseOffset appDefaults = 500.5.
Proof.
  destruct (derived_constants appDefaults eq_refl eq_refl)
    as (_ & _ & A & _ & B & _ & C).
  repeat split; assumption.
Defined.

(** The same three constants evaluated in binary64, the arithmetic the
    component really runs in: no rounding occurs at these inputs. *)
Lemma derived_constants_binary64 :
  (PrimFloat.div 1000 (PrimFloat.mul 2 100) = 5)%float
  /\ (PrimFloat.mul (PrimFloat.div 1000 (PrimFloat.mul 2 100)) 0.4 = 2)%float
  /\ (PrimFloat.add (PrimFloat.div 1000 2) 0.5 = 500.5)%float.
Proof. repeat split; reflexivity. Qed.

(** ** Rotation physics *)

(** The sign-preserving remainder by a positive modulus. *)
Lemma rem_nonneg (x y : R) : 0 <= x -> 0 < y -> 0 <= JS.rem x y < y.
Proof.
  intros Hx Hy. unfold JS.rem, JS.trunc.
  assert (Hq : 0 <= x / y) by (apply Rle_mult_inv_pos; assumption).
  destruct (Rle_dec 0 (x / y)) as [_|Hn]; [|contradiction].
  pose proof (Zfloor_bound (x / y)) as [Hf1 Hf2].
  assert (Hxy : x = x / y * y) by (field; lra).
  set (q := x / y) in *. set (f := IZR (Zfloor q)) in *.
  split; nra.
Qed.

Lemma rem_neg (x y : R) : x < 0 -> 0 < y -> - y < JS.rem x y <= 0.
Proof.
  intros Hx Hy. unfold JS.rem, JS.trunc.
  assert (Hxy : x = x / y * y) by (field; lra).
  assert (Hq : x / y < 0).
  { apply (Rmult_lt_reg_r y); [exact Hy | lra]. }
  destruct (Rle_dec 0 (x / y)) as [Hn|_]; [lra|].
  pose proof (Zceil_bound (x / y)) as [Hc1 Hc2].
  set (q := x / y) in *. set (c := IZR (Zceil q)) in *.
  split; nra.
Qed.

Lemma rem_small_neg (x y : R) : - y < x < 0 -> JS.rem x y = x.
Proof.
  intros [Hl Hu]. unfold JS.rem, JS.trunc.
  assert (Hy : 0 < y) by lra.
  assert (Hxy : x = x / y * y) by (field; lra).
  assert (Hq : -1 < x / y < 0).
  { split; apply (Rmult_lt_reg_r y); try exact Hy; lra. }
  destruct (Rle_dec 0 (x / y)) as [Hn|_]; [lra|].
  rewrite (Zceil_eq 0); [ring | simpl; lra].
Qed.

Lemma rem_abs (x y : R) : 0 < y -> Rabs (JS.rem x y) < y.
Proof.
  intros Hy. apply Rabs_def1.
  - destruct (Rle_dec 0 x) as [Hx|Hx].
    + apply rem_nonneg; assumption.
    + pose proof (rem_neg x y) as H. lra.
  - destruct (Rle_dec 0 x) as [Hx|Hx].
    + pose proof (rem_nonneg x y Hx Hy). lra.
    + apply rem_neg; lra.
Qed.

(** The rotation block of [animate] when [rotationSpeed > 0]. *)
Lemma animate_rotation_on (p : VisualizerProps) (time r1 r2 : R) (s : State) :
  0 < rotationSpeed p ->
  let s' := animate p time r1 r2 s in
  targetDirectionRef s'
  = (if JS.gtb time (nextDirectionChangeTimeRef s)
     then (if JS.gtb r1 0.5 then 1 else -1)
     else targetDirectionRef s)
  /\ smoothedDirectionRef s'
     = smoothedDirectionRef s
       + (targetDirectionRef s' - smoothedDirectionRef s) * 0.02
  /\ currentRotationRef s'
     = JS.rem (currentRotationRef s
               + (rotationSpeed p * 90) / 1000 * smoothedDirectionRef s'
                 * dt time s) 360
  /\ rotation s' = currentRotationRef s'.
Proof.
  intros Hr. unfold animate. simpl. rewrite (gtb_true _ _ Hr). auto.
Qed.

(** The rotation block is skipped otherwise. *)
Lemma animate_rotation_off (p : VisualizerProps) (time r1 r2 : R) (s : State) :
  rotationSpeed p <= 0 ->
  let s' := animate p time r1 r2 s in
  currentRotationRef s' = currentRotationRef s
  /\ targetDirectionRef s' = targetDirectionRef s
  /\ smoothedDirectionRef s' = smoothedDirectionRef s
  /\ nextDirectionChangeTimeRef s' = nextDirectionChangeTimeRef s
  /\ rotation s' = currentRotationRef s.
Proof.
  intros Hr. unfold animate. simpl. rewrite (gtb_false _ _ Hr). auto.
Qed.

Lemma RotationInv_initial (p : VisualizerProps) : RotationInv (initial p).
Proof.
  unfold RotationInv, initial. simpl. rewrite Rabs_R0.
  repeat split; lra.
Qed.

Lemma RotationInv_cleanup (s : State) : RotationInv s -> RotationInv (cleanup s).
Proof. unfold RotationInv, cleanup. simpl. tauto. Qed.

Lemma RotationInv_effect (p : VisualizerProps) (now : R) (s : State) :
  RotationInv s -> RotationInv (effect p now s).
Proof.
  unfold RotationInv, effect. destruct (isPlaying p); simpl; tauto.
Qed.

Lemma RotationInv_animate (p : VisualizerProps) (time r1 r2 : R) (s : State) :
  RotationInv s -> RotationInv (animate p time r1 r2 s).
Proof.
  intros (Ht & Hs & Ha & Hr). unfold RotationInv.
  destruct (Rlt_dec 0 (rotationSpeed p)) as [Hon|Hoff].
  - destruct (animate_rotation_on p time r1 r2 s Hon) as (A & B & C & D).
    assert (Ht' : targetDirectionRef (animate p time r1 r2 s) = 1
                  \/ targetDirectionRef (animate p time r1 r2 s) = -1).
    { rewrite A. destruct (JS.gtb time _); [|exact Ht].
      destruct (JS.gtb r1 0.5); [left|right]; reflexivity. }
    split; [exact Ht'|]. split; [|split].
    + rewrite B. destruct Ht' as [E|E]; rewrite E; lra.
    + rewrite C. apply rem_abs. lra.
    + exact D.
  - assert (Hle : rotationSpeed p <= 0) by lra.
    destruct (animate_rotation_off p time r1 r2 s Hle) as (A & B & C & _ & E).
    rewrite A, B, C, E. tauto.
Qed.

Lemma RotationInv_step (c : Component) (e : Event) :
  RotationInv (refs c) -> RotationInv (refs (step c e)).
Proof.
  intros H. destruct e as [p now|time r1 r2]; simpl.
  - unfold rerender. destruct (depsChanged (props c) p); simpl.
    + apply RotationInv_effect, RotationInv_cleanup, H.
    + exact H.
  - unfold frame. destruct (requestRef (refs c)); simpl.
    + apply RotationInv_animate, H.
    + exact H.
Qed.

Lemma RotationInv_reachable (c : Component) :
  reachable c -> RotationInv (refs c).
Proof.
  induction 1 as [p now|c e _ IH].
  - unfold mount. simpl. apply RotationInv_effect, RotationInv_initial.
  - apply RotationInv_step, IH.
Qed.


(** Claim C8.  With [rotationSpeed = 0], any number of frames leave the
    rotation refs as they are: the current angle, the target direction, the
    smoothed direction and the time of the next direction change; the
    rotation handed to the renderer stays the one of the state the frames
    started from, in every state the component reaches. *)
Theorem zero_rotationSpeed_freezes_rotation
  (c : Component) (fs : list (R * R * R)) :
  rotationSpeed (props c) = 0 ->
  currentRotationRef (refs (run c (frameEvents fs))) = currentRotationRef (refs c)
  /\ targetDirectionRef (refs (run c (frameEvents fs))) = targetDirectionRef (refs c)
  /\ smoothedDirectionRef (refs (run c (frameEvents fs)))
     = smoothedDirectionRef (refs c)
  /\ nextDirectionChangeTimeRef (refs (run c (frameEvents fs)))
     = nextDirectionChangeTimeRef (refs c)
  /\ (reachable c ->
      rotation (refs (run c (frameEvents fs))) = rotation (refs c)).
Proof.
  revert c. induction fs as [|[[time r1] r2] fs IH]; intros c Hr.
  - simpl. auto.
  - change (run c (frameEvents ((time, r1, r2) :: fs)))
      with (run (frame time r1 r2 c) (frameEvents fs)).
    assert (Hprops : props (frame time r1 r2 c) = props c).
    { unfold frame. destruct (requestRef (refs c)); reflexivity. }
    assert (Hr' : rotationSpeed (props (frame time r1 r2 c)) = 0)
      by (rewrite Hprops; exact Hr).
    destruct (IH _ Hr') as (A & B & C & D & E).
    assert (Hle : rotationSpeed (props c) <= 0) by lra.
    destruct (animate_rotation_off (props c) time r1 r2 (refs c) Hle)
      as (A0 & B0 & C0 & D0 & E0).
    assert (Hstep :
              currentRotationRef (refs (frame time r1 r2 c))
              = currentRotationRef (refs c)
              /\ targetDirectionRef (refs (frame time r1 r2 c))
                 = targetDirectionRef (refs c)
              /\ smoothedDirectionRef (refs (frame time r1 r2 c))
                 = smoothedDirectionRef (refs c)
              /\ nextDirectionChangeTimeRef (refs (frame time r1 r2 c))
                 = nextDirectionChangeTimeRef (refs c)
              /\ (rotation (refs c) = currentRotationRef (refs c) ->
                  rotation (refs (frame time r1 r2 c)) = rotation (refs c))).
    { unfold frame. destruct (requestRef (refs c)); simpl.
      - repeat split; try assumption. intros H. rewrite H. exact E0.
      - auto. }
    destruct Hstep as (A1 & B1 & C1 & D1 & E1).
    rewrite A, B, C, D. repeat split; try assumption.
    intros Hc.
    rewrite E.
    + apply E1. apply (RotationInv_reachable c Hc).
    + apply (reach_step c (Frame time r1 r2) Hc).
Qed.

Lemma zero_rotationSpeed_freezes_rotation_witness :
  let c := mount (mkProps true 0.5 0.4 1000 0 3) 1000 in
  let fs := [(1016, 0.25, 0.5); (1033, 0.75, 0.5)] in
  currentRotationRef (refs (run c (frameEvents fs))) = currentRotationRef (refs c)
  /\ targetDirectionRef (refs (run c (frameEvents fs))) = targetDirectionRef (refs c)
  /\ smoothedDirectionRef (refs (run c (frameEvents fs)))
     = smoothedDirectionRef (refs c)
  /\ nextDirectionChangeTimeRef (refs (run c (frameEvents fs)))
     = nextDirectionChangeTimeRef (refs c)
  /\ (reachable c ->
      rotation (refs (run c (frameEvents fs))) = rotation (refs c)).
Proof.
  apply (zero_rotationSpeed_freezes_rotation
           (mount (mkProps true 0.5 0.4 1000 0 3) 1000)
           [(1016, 0.25, 0.5); (1033, 0.75, 0.5)]).
  reflexivity.
Defined.

Lemma negativeExample_reachable : reachable negativeExample.
Proof.
  unfold negativeExample, run. simpl fold_left.
  apply (reach_step _ (Frame 2500 0.25 0.5)).
  apply (reach_step _ (Render (withPlaying true appDefaults) 1000)).
  apply reach_mount.
Qed.

Lemma negativeExample_rotation : rotation (refs negativeExample) = -1.35.
Proof.
  unfold negativeExample, run. simpl fold_left.
  rewrite rerender_play by reflexivity.
  set (p := withPlaying true appDefaults).
  set (s := effect p 1000 (cleanup (refs (mount appDefaults 10)))).
  assert (Hn : nextDirectionChangeTimeRef s = 1000 + 1000).
  { unfold s, effect. simpl. rewrite ltb_true by lra. reflexivity. }
  assert (Hl : lastFrameTimeRef s = 1000) by reflexivity.
  assert (Ha : currentRotationRef s = 0) by reflexivity.
  assert (Hd : smoothedDirectionRef s = 0) by reflexivity.
  assert (Hr : 0 < rotationSpeed p) by (simpl; lra).
  unfold frame. replace (requestRef (refs {| props := p; refs := s |}))
    with true by reflexivity.
  cbn [refs props].
  destruct (animate_rotation_on p 2500 0.25 0.5 s Hr) as (A & B & C & D).
  rewrite D, C, B, A, Hn, Ha, Hd.
  rewrite (gtb_true 2500) by lra. rewrite (gtb_false 0.25) by lra.
  unfold dt. rewrite Hl, eqb_false by lra.
  replace (rotationSpeed p) with 0.5 by reflexivity.
  rewrite rem_small_neg; lra.
Qed.

(** Claim C10.  In every state the component reaches, and after every
    frame that rotates, the angle is strictly between -360 and 360, and so
    is the rotation handed to the renderer.  The angle is not brought back
    into [[0, 360)]: the frame stores the sign-preserving remainder of the
    accumulated angle by 360, which is the accumulated angle itself when
    that lies in (-360, 0) and is never positive when that is negative;
    the component does reach a state with a negative rotation. *)
Theorem rotation_angle_range :
  (forall c : Component,
      reachable c ->
      Rabs (currentRotationRef (refs c)) < 360
      /\ Rabs (rotation (refs c)) < 360)
  /\ (forall (p : VisualizerProps) (time r1 r2 : R) (s : State),
         0 < rotationSpeed p ->
         currentRotationRef (animate p time r1 r2 s)
         = JS.rem (currentRotationRef s
                   + (rotationSpeed p * 90) / 1000
                     * smoothedDirectionRef (animate p time r1 r2 s)
                     * dt time s) 360
         /\ rotation (animate p time r1 r2 s)
            = currentRotationRef (animate p time r1 r2 s)
         /\ Rabs (currentRotationRef (animate p time r1 r2 s)) < 360)
  /\ (forall x : R, -360 < x < 0 -> JS.rem x 360 = x)
  /\ (forall x : R, x < 0 -> -360 < JS.rem x 360 <= 0)
  /\ (exists c : Component, reachable c /\ rotation (refs c) < 0).
Proof.
  split; [|split; [|split; [|split]]].
  - intros c Hc. destruct (RotationInv_reachable c Hc) as (_ & _ & A & B).
    rewrite B. auto.
  - intros p time r1 r2 s Hr.
    destruct (animate_rotation_on p time r1 r2 s Hr) as (_ & _ & C & D).
    repeat split; try assumption.
    rewrite C. apply rem_abs. lra.
  - intros x Hx. apply rem_small_neg. lra.
  - intros x Hx. pose proof (rem_neg x 360 Hx). lra.
  - exists negativeExample. split.
    + exact negativeExample_reachable.
    + rewrite negativeExample_rotation. lra.
Qed.

Lemma rotation_angle_range_witness :
  Rabs (currentRotationRef (refs negativeExample)) < 360
  /\ Rabs (rotation (refs negativeExample)) < 360.
Proof.
  apply (proj1 rotation_angle_range). exact negativeExample_reachable.
Defined.

(** ** Life cycle: what holds in every state the component reaches *)

Lemma depsChanged_false_isPlaying (p q : VisualizerProps) :
  depsChanged p q = false -> isPlaying q = isPlaying p.
Proof.
  unfold depsChanged. intros H.
  repeat (apply orb_false_elim in H; destruct H as [H _]).
  destruct (isPlaying p), (isPlaying q); simpl in H; congruence.
Qed.

Lemma LifecycleInv_effect (p : VisualizerProps) (now : R) (s : State) :
  LifecycleInv {| props := p; refs := effect p now s |}.
Proof.
  unfold LifecycleInv, effect. simpl.
  destruct (isPlaying p); simpl; repeat split; try discriminate; eauto.
Qed.

Lemma LifecycleInv_step (c : Component) (e : Event) :
  LifecycleInv c -> LifecycleInv (step c e).
Proof.
  intros H. destruct e as [p now|time r1 r2]; simpl.
  - unfold rerender. destruct (depsChanged (props c) p) eqn:Hd.
    + apply LifecycleInv_effect.
    + pose proof (depsChanged_false_isPlaying _ _ Hd) as Hp.
      destruct H as (Hr & Hon & Hoff).
      unfold LifecycleInv. simpl. rewrite Hp. auto.
  - unfold frame. destruct (requestRef (refs c)) eqn:Hq; [|exact H].
    destruct H as (Hr & Hon & Hoff). rewrite Hq in Hr.
    destruct (Hon (eq_sym Hr)) as [t0 Ht0].
    destruct (animate_clock (props c) time r1 r2 t0 (refs c) Ht0)
      as (A & _ & C).
    unfold LifecycleInv. cbn [props refs]. rewrite C, A, <- Hr.
    split; [reflexivity|]. split; [eauto | discriminate].
Qed.

Lemma lifecycle_invariant_aux (c : Component) :
  reachable c -> LifecycleInv c.
Proof.
  induction 1 as [p now|c e _ IH].
  - apply (LifecycleInv_effect p now (initial p)).
  - apply (LifecycleInv_step c e IH).
Qed.

(** X1.  In every state the component reaches, a frame callback is pending
    exactly when [isPlaying] holds; while playing [startTimeRef] is set, so
    [animate] never has to initialise it, and while paused it is null. *)
Theorem lifecycle_invariant (c : Component) :
  reachable c ->
  requestRef (refs c) = isPlaying (props c)
  /\ (isPlaying (props c) = true -> exists t0, startTimeRef (refs c) = Some t0)
  /\ (isPlaying (props c) = false -> startTimeRef (refs c) = None).
Proof.
  induction 1 as [p now|c e Hc IH].
  - apply (LifecycleInv_effect p now (initial p)).
  - apply (LifecycleInv_step c e). exact IH.
Qed.

Lemma lifecycle_invariant_witness :
  requestRef (refs runningExample) = isPlaying (props runningExample).
Proof.
  apply (lifecycle_invariant runningExample).
  unfold runningExample, run. simpl fold_left.
  apply (reach_step _ (Frame 2000 0.25 0.5)).
  apply (reach_step _ (Render (withPlaying true appDefaults) 1000)).
  apply reach_mount.
Defined.

Lemma run_cons (c : Component) (e : Event) (es : list Event) :
  run c (e :: es) = run (step c e) es.
Proof. reflexivity. Qed.

Lemma reachable_run (c : Component) (es : list Event) :
  reachable c -> reachable (run c es).
Proof.
  revert c. induction es as [|e es IH]; intros c Hc.
  - exact Hc.
  - rewrite run_cons. apply IH. apply reach_step. exact Hc.
Qed.

Lemma mount_paused_reachable : reachable (mount appDefaults 10).
Proof. apply reach_mount. Qed.

(** One event that keeps a paused component paused changes neither the
    clock nor the rotation refs. *)
Lemma paused_step (c : Component) (e : Event) :
  LifecycleInv c ->
  isPlaying (props c) = false ->
  keepsPaused e ->
  isPlaying (props (step c e)) = false
  /\ pausedTimeRef (refs (step c e)) = pausedTimeRef (refs c)
  /\ currentRotationRef (refs (step c e)) = currentRotationRef (refs c)
  /\ targetDirectionRef (refs (step c e)) = targetDirectionRef (refs c)
  /\ smoothedDirectionRef (refs (step c e)) = smoothedDirectionRef (refs c)
  /\ nextDirectionChangeTimeRef (refs (step c e))
     = nextDirectionChangeTimeRef (refs c)
  /\ lastFrameTimeRef (refs (step c e)) = lastFrameTimeRef (refs c)
  /\ rotation (refs (step c e)) = rotation (refs c).
Proof.
  intros (Hr & _ & Hoff) Hp He. specialize (Hoff Hp).
  destruct e as [p now|time r1 r2]; simpl in *.
  - unfold rerender. destruct (depsChanged (props c) p); simpl.
    + unfold effect. rewrite He. simpl. rewrite Hoff. auto 10.
    + auto 10.
  - unfold frame. rewrite Hr, Hp. auto 10.
Qed.

(** X2.  While the component is paused, frames and renders that keep it
    paused (any parameter changes included) leave the elapsed active time,
    the rotation refs, the frame-delta reference and the emitted rotation
    exactly as they were: nothing advances behind a pause. *)
Theorem paused_component_frozen
  (c : Component) (es : list Event) (now now' : R) :
  reachable c ->
  isPlaying (props c) = false ->
  Forall keepsPaused es ->
  isPlaying (props (run c es)) = false
  /\ elapsedActiveTime now' (refs (run c es)) = elapsedActiveTime now (refs c)
  /\ currentRotationRef (refs (run c es)) = currentRotationRef (refs c)
  /\ targetDirectionRef (refs (run c es)) = targetDirectionRef (refs c)
  /\ smoothedDirectionRef (refs (run c es)) = smoothedDirectionRef (refs c)
  /\ nextDirectionChangeTimeRef (refs (run c es))
     = nextDirectionChangeTimeRef (refs c)
  /\ lastFrameTimeRef (refs (run c es)) = lastFrameTimeRef (refs c)
  /\ rotation (refs (run c es)) = rotation (refs c).
Proof.
  intros Hc Hp Hes. revert c Hc Hp.
  induction Hes as [|e es He _ IH]; intros c Hc Hp.
  - simpl. repeat split; try assumption; try reflexivity.
    destruct (lifecycle_invariant_aux c Hc) as (_ & _ & Hoff).
    unfold elapsedActiveTime. rewrite (Hoff Hp). reflexivity.
  - rewrite run_cons.
    pose proof (lifecycle_invariant_aux c Hc) as Hinv.
    destruct (paused_step c e Hinv Hp He) as (A & B & C & D & E & F & G & H).
    destruct (IH (step c e) (reach_step c e Hc) A)
      as (A' & B' & C' & D' & E' & F' & G' & H').
    split; [exact A'|].
    split.
    { rewrite B'.
      destruct Hinv as (_ & _ & Hoff).
      destruct (lifecycle_invariant_aux _ (reach_step c e Hc)) as (_ & _ & Hoff').
      unfold elapsedActiveTime. rewrite (Hoff Hp), (Hoff' A). exact B. }
    rewrite C', D', E', F', G', H'. auto 10.
Qed.

Lemma paused_component_frozen_witness :
  elapsedActiveTime 9000
    (refs (run (mount appDefaults 10)
             [Render (withSpeed 1 appDefaults) 500; Frame 600 0.25 0.5]))
  = elapsedActiveTime 10 (refs (mount appDefaults 10)).
Proof.
  apply (paused_component_frozen (mount appDefaults 10)
           [Render (withSpeed 1 appDefaults) 500; Frame 600 0.25 0.5] 10 9000).
  - exact mount_paused_reachable.
  - reflexivity.
  - repeat constructor.
Defined.

(** ** The static frame and the running frame *)


(** X4.  Pausing a running component at [now] freezes the elapsed time
    [now - startTime] and renders exactly the scale, offset and mode that a
    frame at [now] renders: the static frame of the effect and the frame of
    [animate] are the same function of the elapsed time. *)
Theorem paused_frame_matches_running_frame
  (p : VisualizerProps) (now r1 r2 t0 : R) (s : State) :
  startTimeRef s = Some t0 ->
  let paused := effect (withPlaying false p) now (cleanup s) in
  let running := animate p now r1 r2 s in
  pausedTimeRef paused = now - t0
  /\ scale paused = scale running
  /\ offsetX paused = offsetX running
  /\ phaseMode paused = phaseMode running.
Proof.
  intros Hs. unfold effect, animate. simpl. rewrite Hs. auto.
Qed.

Lemma paused_frame_matches_running_frame_witness :
  scale (effect (withPlaying false appDefaults) 2000
           (cleanup (refs (mount (withPlaying true appDefaults) 1000))))
  = scale (animate appDefaults 2000 0.25 0.5
             (refs (mount (withPlaying true appDefaults) 1000))).
Proof.
  apply (paused_frame_matches_running_frame appDefaults 2000 0.25 0.5
           (1000 - 0) (refs (mount (withPlaying true appDefaults) 1000))).
  reflexivity.
Defined.

(** ** The scale as a function of the elapsed time *)

Lemma rem_floor (x y : R) :
  0 <= x -> 0 < y -> JS.rem x y = x - y * JS.floor (x / y).
Proof.
  intros Hx Hy. unfold JS.rem, JS.trunc, JS.floor.
  assert (Hq : 0 <= x / y) by (apply Rle_mult_inv_pos; assumption).
  destruct (Rle_dec 0 (x / y)); [reflexivity | contradiction].
Qed.

Lemma animate_scale_at (p : VisualizerProps) (t0 E r1 r2 : R) (s : State) :
  startTimeRef s = Some t0 ->
  scale (animate p (t0 + E) r1 r2 s)
  = minScale p
    + (maxScale p - minScale p)
      * oscillation (JS.rem E (4000 / speed p) / (4000 / speed p)).
Proof.
  intros Hs. unfold animate. simpl. rewrite Hs.
  replace (t0 + E - t0) with E by ring. reflexivity.
Qed.

(** ** The two shapes on screen *)



(** ** Rotation: the direction schedule, the approach to the target and
    the angular speed *)




Lemma frame_pending (time r1 r2 : R) (c : Component) :
  requestRef (refs c) = true ->
  frame time r1 r2 c
  = {| props := props c; refs := animate (props c) time r1 r2 (refs c) |}.
Proof. intros H. unfold frame. rewrite H. reflexivity. Qed.

Lemma rem_small (x y : R) : Rabs x < y -> JS.rem x y = x.
Proof.
  intros H. pose proof (Rabs_pos x) as Hp.
  destruct (Rle_dec 0 x) as [Hx|Hx].
  - rewrite Rabs_pos_eq in H by exact Hx.
    rewrite rem_floor by lra. unfold JS.floor.
    rewrite (Zfloor_eq 0).
    + simpl. ring.
    + apply div_bounds; simpl; lra.
  - apply rem_small_neg. rewrite Rabs_left in H by lra. lra.
Qed.

(** X11.  In every state the component reaches, a rotating frame turns
    the shapes by [delta = rotationSpeed * 90 / 1000 * smoothedDirection * dt]
    before the remainder by 360 is taken, and [|delta|] is at most
    [rotationSpeed * 90 / 1000 * |dt|]: the shapes never turn faster than
    [90 * rotationSpeed] degrees per second.  When the accumulated angle
    stays inside (-360, 360) the new angle is the old one plus [delta]. *)
Theorem angular_speed_bound (c : Component) (time r1 r2 : R) :
  reachable c ->
  requestRef (refs c) = true ->
  0 < rotationSpeed (props c) ->
  let s := refs c in
  let s' := refs (frame time r1 r2 c) in
  let delta :=
    (rotationSpeed (props c) * 90) / 1000 * smoothedDirectionRef s' * dt time s in
  currentRotationRef s' = JS.rem (currentRotationRef s + delta) 360
  /\ Rabs delta <= (rotationSpeed (props c) * 90) / 1000 * Rabs (dt time s)
  /\ (Rabs (currentRotationRef s + delta) < 360 ->
      currentRotationRef s' = currentRotationRef s + delta).
Proof.
  intros Hc Hq Hr s s' delta. subst delta s'.
  rewrite (frame_pending time r1 r2 c Hq). cbn [refs].
  destruct (animate_rotation_on (props c) time r1 r2 (refs c) Hr)
    as (_ & _ & C & _).
  destruct (RotationInv_animate (props c) time r1 r2 (refs c)
              (RotationInv_reachable c Hc)) as (_ & Hsm & _).
  fold s in C, Hsm |- *.
  split; [exact C|]. split.
  - rewrite !Rabs_mult.
    rewrite (Rabs_pos_eq (rotationSpeed (props c) * 90 / 1000)) by lra.
    assert (H1 : Rabs (smoothedDirectionRef (animate (props c) time r1 r2 s)) <= 1).
    { apply Rabs_le. exact Hsm. }
    pose proof (Rabs_pos (dt time s)) as Hd.
    pose proof (Rabs_pos (smoothedDirectionRef (animate (props c) time r1 r2 s)))
      as Hs0.
    assert (Hk : 0 < rotationSpeed (props c) * 90 / 1000) by lra.
    set (k := rotationSpeed (props c) * 90 / 1000) in *.
    set (a := Rabs (smoothedDirectionRef (animate (props c) time r1 r2 s))) in *.
    set (d := Rabs (dt time s)) in *.
    assert (a * d <= 1 * d) by (apply Rmult_le_compat_r; assumption).
    rewrite Rmult_assoc. apply Rmult_le_compat_l; lra.
  - intros Hsmall. rewrite C. apply rem_small. exact Hsmall.
Qed.

Lemma angular_speed_bound_witness :
  let c := mount (withPlaying true appDefaults) 1000 in
  let s := refs c in
  let s' := refs (frame 1016 0.25 0.5 c) in
  let delta :=
    (rotationSpeed (props c) * 90) / 1000 * smoothedDirectionRef s' * dt 1016 s in
  Rabs delta <= (rotationSpeed (props c) * 90) / 1000 * Rabs (dt 1016 s).
Proof.
  apply (angular_speed_bound (mount (withPlaying true appDefaults) 1000)
           1016 0.25 0.5).
  - apply reach_mount.
  - reflexivity.
  - simpl. lra.
Defined.

(** X12.  A resume at [now] never leaves a direction change scheduled in
    the past: a schedule that has elapsed is moved to [now + 1000], one that
    has not is kept; so no frame with a time stamp up to [now], and up to
    [now + 1000] when the schedule had elapsed, changes the target
    direction. *)
Theorem resume_defers_reroll (p : VisualizerProps) (now : R) (s : State) :
  isPlaying p = true ->
  let s' := effect p now (cleanup s) in
  now <= nextDirectionChangeTimeRef s'
  /\ (nextDirectionChangeTimeRef s < now ->
      nextDirectionChangeTimeRef s' = now + 1000)
  /\ (now <= nextDirectionChangeTimeRef s ->
      nextDirectionChangeTimeRef s' = nextDirectionChangeTimeRef s)
  /\ (forall time r1 r2 : R,
         time <= nextDirectionChangeTimeRef s' ->
         targetDirectionRef (animate p time r1 r2 s') = targetDirectionRef s).
Proof.
  intros Hp s'.
  assert (Hn : nextDirectionChangeTimeRef s'
               = if JS.ltb (nextDirectionChangeTimeRef s) now
                 then now + 1000 else nextDirectionChangeTimeRef s).
  { unfold s', effect. rewrite Hp. reflexivity. }
  assert (Ht : targetDirectionRef s' = targetDirectionRef s).
  { unfold s', effect. rewrite Hp. reflexivity. }
  split; [|split; [|split]].
  - rewrite Hn. unfold JS.ltb.
    destruct (Rlt_dec (nextDirectionChangeTimeRef s) now); lra.
  - intros H. rewrite Hn, ltb_true by exact H. reflexivity.
  - intros H. rewrite Hn, ltb_false by exact H. reflexivity.
  - intros time r1 r2 Htime. rewrite <- Ht.
    unfold animate. simpl. rewrite (gtb_false _ _ Htime).
    destruct (JS.gtb (rotationSpeed p) 0); reflexivity.
Qed.

Lemma resume_defers_reroll_witness :
  let s := refs (mount appDefaults 10) in
  let s' := effect (withPlaying true appDefaults) 1000 (cleanup s) in
  1000 <= nextDirectionChangeTimeRef s'.
Proof.
  apply (resume_defers_reroll (withPlaying true appDefaults) 1000
           (refs (mount appDefaults 10))).
  reflexivity.
Defined.

(** ** The [App] component *)

Lemma clearUiTimeout_timers (a : App.State) :
  (App.timers a = []
   \/ exists due, App.timers a = [(App.uiTimeoutRef a, due)]
                  /\ App.uiTimeoutRef a <> 0%nat) ->
  App.clearUiTimeout a = App.setTimers [] a.
Proof.
  intros H. unfold App.clearUiTimeout.
  destruct (Nat.eqb (App.uiTimeoutRef a) 0) eqn:E.
  - apply Nat.eqb_eq in E. destruct H as [H|(due & H & Hn)]; [|contradiction].
    destruct a; simpl in *; subst; reflexivity.
  - destruct H as [H|(due & H & _)]; rewrite H; simpl.
    + reflexivity.
    + rewrite Nat.eqb_refl. reflexivity.
Qed.

Lemma UiInv_toggle (a : App.State) (now : R) :
  App.UiInv a ->
  App.UiInv (App.setIsPlaying (negb (App.isPlaying a)) now a).
Proof.
  intros (H1 & H2 & H3 & H4). unfold App.setIsPlaying.
  destruct (App.isPlaying a) eqn:Hp; simpl.
  - unfold App.uiCleanup.
    rewrite (clearUiTimeout_timers (App.setListening false a)).
    2:{ simpl. destruct H3 as [H3|(due & H3 & Hn & _)]; eauto. }
    unfold App.uiEffect. simpl.
    rewrite clearUiTimeout_timers by (left; reflexivity).
    unfold App.UiInv. simpl. repeat split; auto; discriminate.
  - destruct (H1 eq_refl) as (Hv & Ht & Hl).
    unfold App.uiEffect, App.showUi. simpl.
    rewrite clearUiTimeout_timers by (left; exact Ht).
    unfold App.UiInv. simpl. repeat split; try discriminate; try lia.
    right. exists (now + 2000). repeat split. lia.
Qed.

Lemma UiInv_step (a : App.State) (e : App.Event) :
  App.UiInv a -> App.UiInv (App.step a e).
Proof.
  intros H. destruct e as [space now|now|now|now|now|now|handle now]; simpl.
  - destruct space; [|exact H].
    apply (UiInv_toggle (App.setIsUiVisible true a)).
    destruct H as (H1 & H2 & H3 & H4). unfold App.UiInv. simpl.
    repeat split; auto; try (apply H1; assumption).
    destruct H3 as [H3|(due & H3 & Hn & Hv)]; eauto.
  - apply UiInv_toggle, H.
  - rewrite negb_involutive. unfold App.setIsPlaying.
    rewrite Bool.eqb_reflx. exact H.
  - apply (UiInv_toggle (App.setShowSettings true a)). exact H.
  - apply (UiInv_toggle (App.setShowSettings false a)). exact H.
  - destruct (App.listening a) eqn:Hl; [|exact H].
    destruct H as (H1 & H2 & H3 & H4).
    assert (Hp : App.isPlaying a = true).
    { destruct (App.isPlaying a); [reflexivity|].
      destruct (H1 eq_refl) as (_ & _ & Hl'). congruence. }
    unfold App.showUi.
    rewrite (clearUiTimeout_timers (App.setIsUiVisible true a)).
    2:{ simpl. destruct H3 as [H3|(due & H3 & Hn & _)]; eauto. }
    unfold App.UiInv. simpl. rewrite Hp, Hl.
    repeat split; try discriminate; try lia.
    right. exists (now + 2000). repeat split. lia.
  - destruct H as (H1 & H2 & H3 & H4).
    destruct (find _ (App.timers a)) as [[h due]|] eqn:Hf;
      [|unfold App.UiInv; auto].
    destruct (Rle_dec due now); [|unfold App.UiInv; auto].
    assert (Hp : App.isPlaying a = true).
    { destruct (App.isPlaying a); [reflexivity|].
      destruct (H1 eq_refl) as (_ & Ht & _). rewrite Ht in Hf. discriminate. }
    destruct H3 as [H3|(due' & H3 & Hn & Hv)].
    { rewrite H3 in Hf. discriminate. }
    rewrite H3 in Hf |- *. simpl in Hf |- *.
    destruct (Nat.eqb (App.uiTimeoutRef a) handle) eqn:E; [|discriminate].
    unfold App.UiInv. simpl. rewrite Hp.
    repeat split; try discriminate; auto.
Qed.

Lemma UiInv_reachable (a : App.State) : App.reachable a -> App.UiInv a.
Proof.
  induction 1 as [|a e _ IH].
  - unfold App.UiInv, App.initial. simpl. repeat split; auto; discriminate.
  - apply UiInv_step, IH.
Qed.

(** X14.  In every state [App] reaches: while paused the user interface is
    visible, no hide timeout is pending and no mousemove listener is
    registered; while playing the listener is registered; at most one hide
    timeout is pending, it is the one [uiTimeoutRef] holds, and the
    interface is visible while it is pending; the cursor is hidden exactly
    when the interface is hidden, and the controls are shown whenever the
    component is paused. *)
Theorem ui_visibility_invariant (a : App.State) :
  App.reachable a ->
  (App.isPlaying a = false ->
     App.isUiVisible a = true /\ App.timers a = [] /\ App.listening a = false
     /\ App.controlsShown a = true)
  /\ (App.isPlaying a = true -> App.listening a = true)
  /\ (length (App.timers a) <= 1)%nat
  /\ (forall h due, In (h, due) (App.timers a) ->
        h = App.uiTimeoutRef a /\ App.isUiVisible a = true)
  /\ App.cursorNone a = negb (App.isUiVisible a).
Proof.
  intros Ha. destruct (UiInv_reachable a Ha) as (H1 & H2 & H3 & H4).
  split; [|split; [|split; [|split]]].
  - intros Hp. destruct (H1 Hp) as (Hv & Ht & Hl).
    unfold App.controlsShown. rewrite Hv. auto.
  - exact H2.
  - destruct H3 as [H3|(due & H3 & _)]; rewrite H3; simpl; lia.
  - intros h due Hin.
    destruct H3 as [H3|(due' & H3 & _ & Hv)]; rewrite H3 in Hin; simpl in Hin.
    + contradiction.
    + destruct Hin as [Hin|[]]. inversion Hin. auto.
  - unfold App.cursorNone.
    destruct (App.isPlaying a) eqn:Hp; simpl; [reflexivity|].
    destruct (H1 eq_refl) as (Hv & _). rewrite Hv. reflexivity.
Qed.

Lemma ui_visibility_invariant_witness :
  let a := App.step (App.step App.initial (App.KeyDown true 1000))
                    (App.MouseMove 1500) in
  (length (App.timers a) <= 1)%nat.
Proof.
  apply (ui_visibility_invariant
           (App.step (App.step App.initial (App.KeyDown true 1000))
                     (App.MouseMove 1500))).
  apply App.reach_step, App.reach_step, App.reach_initial.
Defined.

Lemma showUi_playing (a : App.State) (now : R) :
  App.UiInv a ->
  App.showUi true now a
  = App.setUiTimeout now (App.setTimers [] (App.setIsUiVisible true a)).
Proof.
  intros (_ & _ & H3 & _). unfold App.showUi.
  rewrite (clearUiTimeout_timers (App.setIsUiVisible true a)); [reflexivity|].
  simpl. destruct H3 as [H3|(due & H3 & Hn & _)]; eauto.
Qed.

(** X15.  While [App] is playing, a mouse movement at [now] shows the user
    interface and leaves exactly one hide timeout pending, due at
    [now + 2000]: no timeout callback running before that time changes
    anything, and when that timeout runs at or after its due time the
    interface is hidden and no timeout is left.  While paused a mouse
    movement does nothing. *)
Theorem mouse_move_shows_ui (a : App.State) (now : R) :
  App.reachable a ->
  (App.isPlaying a = true ->
     let a' := App.step a (App.MouseMove now) in
     App.isUiVisible a' = true
     /\ App.timers a' = [(App.uiTimeoutRef a', now + 2000)]
     /\ (forall h t, t < now + 2000 -> App.step a' (App.Timeout h t) = a')
     /\ (forall t, now + 2000 <= t ->
           App.isUiVisible (App.step a' (App.Timeout (App.uiTimeoutRef a') t))
           = false
           /\ App.timers (App.step a' (App.Timeout (App.uiTimeoutRef a') t))
              = []))
  /\ (App.isPlaying a = false -> App.step a (App.MouseMove now) = a).
Proof.
  intros Ha. pose proof (UiInv_reachable a Ha) as Hinv.
  destruct (UiInv_reachable a Ha) as (H1 & H2 & H3 & H4).
  split.
  - intros Hp a'. unfold a'. cbn [App.step]. rewrite (H2 Hp).
    rewrite showUi_playing by exact Hinv.
    simpl. split; [reflexivity|]. split; [reflexivity|]. split.
    + intros h t Ht.
      destruct (Nat.eqb (App.nextTimer a) h); [|reflexivity].
      destruct (Rle_dec (now + 2000) t); [lra | reflexivity].
    + intros t Ht. rewrite Nat.eqb_refl.
      destruct (Rle_dec (now + 2000) t); [|lra].
      simpl. auto.
  - intros Hp. simpl. destruct (H1 Hp) as (_ & _ & Hl). rewrite Hl. reflexivity.
Qed.

Lemma mouse_move_shows_ui_witness :
  let a := App.step App.initial (App.KeyDown true 1000) in
  App.isUiVisible (App.step a (App.MouseMove 1500)) = true.
Proof.
  assert (Hr : App.reachable (App.step App.initial (App.KeyDown true 1000)))
    by apply App.reach_step, App.reach_initial.
  destruct (mouse_move_shows_ui _ 1500 Hr) as [H _].
  apply H. reflexivity.
Defined.

Lemma isPlaying_clearUiTimeout (a : App.State) :
  App.isPlaying (App.clearUiTimeout a) = App.isPlaying a.
Proof.
  unfold App.clearUiTimeout.
  destruct (Nat.eqb (App.uiTimeoutRef a) 0); reflexivity.
Qed.

Lemma isPlaying_toggle (a : App.State) (now : R) :
  App.isPlaying (App.setIsPlaying (negb (App.isPlaying a)) now a)
  = negb (App.isPlaying a).
Proof.
  unfold App.setIsPlaying.
  destruct (App.isPlaying a) eqn:Hp; simpl.
  - unfold App.uiEffect. simpl. rewrite isPlaying_clearUiTimeout. reflexivity.
  - unfold App.uiEffect, App.showUi. simpl.
    rewrite isPlaying_clearUiTimeout. reflexivity.
Qed.

(** X16.  A click on the floating play button changes nothing: its own
    handler requests [!isPlaying] and the click then reaches the background
    handler, which negates the requested value again.  The space key and a
    click on the background do toggle [isPlaying], a click on the settings
    button or on the close button of the settings toggles it as well, and
    any other key does nothing. *)
Theorem play_button_click_changes_nothing (a : App.State) (now : R) :
  App.step a (App.ClickPlayButton now) = a
  /\ App.isPlaying (App.step a (App.ClickBackground now))
     = negb (App.isPlaying a)
  /\ App.isPlaying (App.step a (App.KeyDown true now)) = negb (App.isPlaying a)
  /\ App.isPlaying (App.step a (App.ClickSettingsButton now))
     = negb (App.isPlaying a)
  /\ App.isPlaying (App.step a (App.ClickCloseSettings now))
     = negb (App.isPlaying a)
  /\ App.step a (App.KeyDown false now) = a.
Proof.
  split; [|split; [|split; [|split; [|split]]]].
  - simpl. rewrite negb_involutive. unfold App.setIsPlaying.
    rewrite Bool.eqb_reflx. reflexivity.
  - apply isPlaying_toggle.
  - apply (isPlaying_toggle (App.setIsUiVisible true a)).
  - apply (isPlaying_toggle (App.setShowSettings true a)).
  - apply (isPlaying_toggle (App.setShowSettings false a)).
  - reflexivity.
Qed.

(** ** Frames in Global and in Parallel mode *)

(** Two frames of the first playback with the defaults of [App]: at
    24001 ms the mode is Global; at 4000 ms, half a cycle, the mode is
    Parallel and the scale is [minScale]. *)
Lemma defaults_frame_global (r1 r2 : R) :
  phaseMode (animate (withPlaying true appDefaults) (1000 - 0 + 24001) r1 r2
               (refs (mount (withPlaying true appDefaults) 1000)))
  = global.
Proof.
  assert (Hp3 : phaseInterval (withPlaying true appDefaults) = IZR 3)
    by reflexivity.
  assert (Hst : startTimeRef (refs (mount (withPlaying true appDefaults) 1000))
                = Some (1000 - 0)) by reflexivity.
  rewrite (animate_phaseMode _ 3 (1000 - 0) 24001 r1 r2 _ Hp3 Hst).
  apply (spec_phaseMode_group 24001 _ 3 1); simpl; [lra | lia | lra].
Qed.

Lemma defaults_frame_half_cycle (r1 r2 : R) :
  phaseMode (animate (withPlaying true appDefaults) (1000 - 0 + 4000) r1 r2
               (refs (mount (withPlaying true appDefaults) 1000)))
  = parallel
  /\ scale (animate (withPlaying true appDefaults) (1000 - 0 + 4000) r1 r2
              (refs (mount (withPlaying true appDefaults) 1000)))
     = minScale (withPlaying true appDefaults).
Proof.
  assert (Hp3 : phaseInterval (withPlaying true appDefaults) = IZR 3)
    by reflexivity.
  assert (Hst : startTimeRef (refs (mount (withPlaying true appDefaults) 1000))
                = Some (1000 - 0)) by reflexivity.
  split.
  - rewrite (animate_phaseMode _ 3 (1000 - 0) 4000 r1 r2 _ Hp3 Hst).
    apply (spec_phaseMode_group 4000 _ 3 0); simpl; [lra | lia | lra].
  - rewrite (animate_scale_at _ (1000 - 0) 4000 r1 r2 _ Hst).
    replace (4000 / speed (withPlaying true appDefaults)) with 8000
      by (simpl; lra).
    rewrite rem_small by (rewrite Rabs_pos_eq; lra).
    replace (4000 / 8000) with (1 / 2) by lra.
    rewrite oscillation_half. ring.
Qed.

(** The offset law at work on a Global frame, and on a Parallel frame whose
    scale is not the maximal one. *)
Lemma offset_follows_phaseMode_witness :
  let p := withPlaying true appDefaults in
  let s := refs (mount p 1000) in
  let g := animate p (1000 - 0 + 24001) 0.25 0.5 s in
  let h := animate p (1000 - 0 + 4000) 0.25 0.5 s in
  (phaseMode g = global
   /\ offsetX g = baseOffset p * (scale g / maxScale p))
  /\ (phaseMode h = parallel
      /\ scale h = minScale p
      /\ minScale p <> maxScale p
      /\ offsetX h = baseOffset p).
Proof.
  intros p s g h.
  destruct offset_follows_phaseMode as [H _].
  pose proof (defaults_frame_global 0.25 0.5) as Hg.
  destruct (defaults_frame_half_cycle 0.25 0.5) as [Hh Hs].
  split.
  - split; [exact Hg|].
    destruct (H p (1000 - 0 + 24001) 0.25 0.5 s) as (_ & G & _).
    exact (G Hg).
  - split; [exact Hh|]. split; [exact Hs|]. split.
    + unfold minScale, maxScale, R_OUT. simpl. lra.
    + destruct (H p (1000 - 0 + 4000) 0.25 0.5 s) as (P & _).
      exact (P Hh).
Defined.






(** ** The binary64 component: the clock *)

Lemma float_neq (x y : float) :
  PrimFloat.eqb x y = false -> PrimFloat.eqb y y = true -> x <> y.
Proof. intros H1 H2 E. subst x. congruence. Qed.

Lemma B64_depsChanged_isPlaying (p q : B64.Props) :
  B64.isPlaying p <> B64.isPlaying q -> B64.depsChanged p q = true.
Proof.
  intros H. unfold B64.depsChanged.
  destruct (B64.isPlaying p), (B64.isPlaying q); simpl; try reflexivity;
    congruence.
Qed.

(** Stop at [t], then start at [t']: while stopped the clock reads the
    value of the stop at every wall-clock time; after the start it reads
    [t' - (t' - E)], each subtraction rounded. *)
Lemma B64_stop_start (Math_cos : float -> float) (p q : B64.Props)
      (t t' now : float) (s : B64.State) :
  B64.isPlaying p = false ->
  B64.isPlaying q = true ->
  B64.elapsedActiveTime now (B64.effect Math_cos p t (B64.cleanup s))
  = B64.elapsedActiveTime t s
  /\ B64.elapsedActiveTime t'
       (B64.effect Math_cos q t'
          (B64.cleanup (B64.effect Math_cos p t (B64.cleanup s))))
     = PrimFloat.sub t' (PrimFloat.sub t' (B64.elapsedActiveTime t s)).
Proof.
  intros Hp Hq. unfold B64.effect, B64.elapsedActiveTime. rewrite Hp, Hq.
  cbn [B64.startTimeRef B64.pausedTimeRef B64.cleanup].
  destruct (B64.startTimeRef s); split; reflexivity.
Qed.

(** Cycles of play, frames and pause in binary64. *)
Lemma B64_animate_clock (Math_cos : float -> float) (p : B64.Props)
      (time r1 r2 t0 : float) (s : B64.State) :
  B64.startTimeRef s = Some t0 ->
  B64.startTimeRef (B64.animate Math_cos p time r1 r2 s) = Some t0
  /\ B64.pausedTimeRef (B64.animate Math_cos p time r1 r2 s)
     = B64.pausedTimeRef s
  /\ B64.requestRef (B64.animate Math_cos p time r1 r2 s) = true.
Proof.
  intros H. unfold B64.animate.
  cbn [B64.startTimeRef B64.pausedTimeRef B64.requestRef]. rewrite H. auto.
Qed.

Lemma B64_frames_clock (Math_cos : float -> float)
      (fs : list (float * float * float)) (c : B64.Component) (t0 : float) :
  B64.startTimeRef (B64.refs c) = Some t0 ->
  B64.requestRef (B64.refs c) = true ->
  let c' := B64.run Math_cos c (B64.frameEvents fs) in
  B64.startTimeRef (B64.refs c') = Some t0
  /\ B64.pausedTimeRef (B64.refs c') = B64.pausedTimeRef (B64.refs c)
  /\ B64.requestRef (B64.refs c') = true
  /\ B64.props c' = B64.props c.
Proof.
  revert c. induction fs as [|[[time r1] r2] fs IH]; intros c Hs Hr.
  - cbn. auto.
  - change (B64.run Math_cos c (B64.frameEvents ((time, r1, r2) :: fs)))
      with (B64.run Math_cos (B64.frame Math_cos time r1 r2 c)
              (B64.frameEvents fs)).
    assert (Hf : B64.frame Math_cos time r1 r2 c
                 = B64.mkComponent (B64.props c)
                     (B64.animate Math_cos (B64.props c) time r1 r2 (B64.refs c))).
    { unfold B64.frame. rewrite Hr. reflexivity. }
    rewrite Hf.
    destruct (B64_animate_clock Math_cos (B64.props c) time r1 r2 t0
                (B64.refs c) Hs) as (A & B & C).
    destruct (IH (B64.mkComponent (B64.props c)
                    (B64.animate Math_cos (B64.props c) time r1 r2 (B64.refs c)))
                 A C) as (A' & B' & C' & D').
    cbn [B64.refs B64.props] in *.
    repeat split; assumption.
Qed.

Lemma B64_cycle_clock (Math_cos : float -> float) (cy : B64.Cycle)
      (c : B64.Component) :
  B64.isPlaying (B64.props c) = false ->
  B64.startTimeRef (B64.refs c) = None ->
  let c' := B64.run Math_cos c (B64.cycleEvents (B64.props c) cy) in
  B64.isPlaying (B64.props c') = false
  /\ B64.startTimeRef (B64.refs c') = None
  /\ B64.pausedTimeRef (B64.refs c')
     = PrimFloat.sub (B64.pauseAt cy)
         (PrimFloat.sub (B64.resumeAt cy) (B64.pausedTimeRef (B64.refs c))).
Proof.
  intros Hp Hs. unfold B64.cycleEvents, B64.run. cbn [fold_left].
  rewrite fold_left_app. cbn [fold_left B64.step].
  set (c1 := B64.rerender Math_cos (B64.withPlaying true (B64.props c))
               (B64.resumeAt cy) c).
  assert (H1 : c1 = B64.mkComponent (B64.withPlaying true (B64.props c))
                      (B64.effect Math_cos (B64.withPlaying true (B64.props c))
                         (B64.resumeAt cy) (B64.cleanup (B64.refs c)))).
  { unfold c1, B64.rerender. rewrite B64_depsChanged_isPlaying; [reflexivity|].
    cbn. rewrite Hp. discriminate. }
  assert (Hs1 : B64.startTimeRef (B64.refs c1)
                = Some (PrimFloat.sub (B64.resumeAt cy)
                          (B64.pausedTimeRef (B64.refs c)))).
  { rewrite H1. unfold B64.effect. cbn. rewrite Hs. reflexivity. }
  assert (Hr1 : B64.requestRef (B64.refs c1) = true) by (rewrite H1; reflexivity).
  destruct (B64_frames_clock Math_cos (B64.frames cy) c1 _ Hs1 Hr1)
    as (A & B & C & D).
  unfold B64.run in A, B, C, D.
  set (c2 := fold_left (B64.step Math_cos) _ c1) in *.
  unfold B64.rerender. rewrite B64_depsChanged_isPlaying.
  2:{ rewrite D, H1. cbn. discriminate. }
  unfold B64.effect. cbn. rewrite A. cbn. auto.
Qed.

Lemma B64_runCycles_clock (Math_cos : float -> float) (cys : list B64.Cycle)
      (c : B64.Component) :
  B64.isPlaying (B64.props c) = false ->
  B64.startTimeRef (B64.refs c) = None ->
  B64.isPlaying (B64.props (B64.runCycles Math_cos c cys)) = false
  /\ B64.startTimeRef (B64.refs (B64.runCycles Math_cos c cys)) = None
  /\ B64.pausedTimeRef (B64.refs (B64.runCycles Math_cos c cys))
     = B64.pausedAfter (B64.pausedTimeRef (B64.refs c)) cys.
Proof.
  revert c. induction cys as [|cy cys IH]; intros c Hp Hs.
  - cbn. auto.
  - change (B64.runCycles Math_cos c (cy :: cys))
      with (B64.runCycles Math_cos
              (B64.run Math_cos c (B64.cycleEvents (B64.props c) cy)) cys).
    destruct (B64_cycle_clock Math_cos cy c Hp Hs) as (A & B & C).
    destruct (IH _ A B) as (A' & B' & C').
    repeat split; try assumption.
    rewrite C', C. reflexivity.
Qed.

(** Claim C2 as stated fails in binary64.  Play at 1000.3 ms, stop at
    9000.3 ms: the elapsed time is 7999.999999999999 ms.  Start again at
    100000.1 ms: the clock reads 8000 ms, whatever the cosine. *)
Lemma pause_resume_drift_binary64 :
  ~ (exists Math_cos : float -> float,
        forall (p q : B64.Props) (t t' : float) (s : B64.State),
          B64.isPlaying p = false ->
          B64.isPlaying q = true ->
          B64.elapsedActiveTime t'
            (B64.effect Math_cos q t'
               (B64.cleanup (B64.effect Math_cos p t (B64.cleanup s))))
          = B64.elapsedActiveTime t s).
Proof.
  intros [Math_cos H].
  specialize (H B64.appDefaults (B64.withPlaying true B64.appDefaults)
                9000.3%float 100000.1%float
                (B64.refs (B64.mount Math_cos
                             (B64.withPlaying true B64.appDefaults) 1000.3%float))
                eq_refl eq_refl).
  rewrite (proj2 (B64_stop_start Math_cos B64.appDefaults
                    (B64.withPlaying true B64.appDefaults)
                    9000.3%float 100000.1%float 0%float _ eq_refl eq_refl))
    in H.
  revert H. apply float_neq; vm_compute; reflexivity.
Qed.

(** Claim C2, amended.  Stopping at [t] freezes the elapsed active time:
    while stopped, the clock reads the value of the stop at every
    wall-clock time, so paused time is never counted.  Starting again at
    [t'] sets the start time to [t' - pausedTime], so that right after the
    start the clock reads [t' - (t' - E)], where [E] is the elapsed time of
    the stop and both subtractions are binary64 operations; a list of
    pause/resume cycles, with any frames in between, turns a frozen elapsed
    time [p] into [pauseAt - (resumeAt - p)] cycle after cycle.  In exact
    arithmetic these values are [E] and the sum of the active intervals. *)
Theorem pause_resume_rebases_clock :
  (forall (Math_cos : float -> float) (p q : B64.Props) (t t' now : float)
          (s : B64.State),
      B64.isPlaying p = false ->
      B64.isPlaying q = true ->
      B64.elapsedActiveTime now (B64.effect Math_cos p t (B64.cleanup s))
      = B64.elapsedActiveTime t s
      /\ B64.elapsedActiveTime t'
           (B64.effect Math_cos q t'
              (B64.cleanup (B64.effect Math_cos p t (B64.cleanup s))))
         = PrimFloat.sub t' (PrimFloat.sub t' (B64.elapsedActiveTime t s)))
  /\ (forall (Math_cos : float -> float) (cys : list B64.Cycle)
             (c : B64.Component) (now : float),
         B64.isPlaying (B64.props c) = false ->
         B64.startTimeRef (B64.refs c) = None ->
         B64.elapsedActiveTime now (B64.refs (B64.runCycles Math_cos c cys))
         = B64.pausedAfter (B64.pausedTimeRef (B64.refs c)) cys)
  /\ (forall (p q : VisualizerProps) (t t' : R) (s : State),
         isPlaying p = false ->
         isPlaying q = true ->
         elapsedActiveTime t' (effect q t' (cleanup (effect p t (cleanup s))))
         = elapsedActiveTime t s)
  /\ (forall (cys : list Cycle) (c : Component) (now now' : R),
         isPlaying (props c) = false ->
         startTimeRef (refs c) = None ->
         elapsedActiveTime now' (refs (runCycles c cys))
         = elapsedActiveTime now (refs c) + activeTime cys).
Proof.
  split; [|split; [|exact exact_pause_resume]].
  - intros Math_cos p q t t' now s Hp Hq.
    apply B64_stop_start; assumption.
  - intros Math_cos cys c now Hp Hs.
    destruct (B64_runCycles_clock Math_cos cys c Hp Hs) as (_ & B & C).
    unfold B64.elapsedActiveTime. rewrite B. exact C.
Qed.

(** The amended claim on the run of the counterexample, and on two cycles
    of the freshly mounted component. *)
Lemma pause_resume_rebases_clock_witness :
  let cosine := B64.cosine in
  let running :=
    B64.refs (B64.mount cosine (B64.withPlaying true B64.appDefaults)
                1000.3%float) in
  let stopped := B64.effect cosine B64.appDefaults 9000.3%float
                   (B64.cleanup running) in
  B64.elapsedActiveTime 50000%float stopped = 7999.999999999999%float
  /\ B64.elapsedActiveTime 100000.1%float
       (B64.effect cosine (B64.withPlaying true B64.appDefaults) 100000.1%float
          (B64.cleanup stopped))
     = 8000%float
  /\ B64.elapsedActiveTime 0%float
       (B64.refs (B64.runCycles cosine (B64.mount cosine B64.appDefaults 10%float)
                    [B64.mkCycle 1000.3%float [(1016%float, 0.25%float, 0.5%float)]
                       9000.3%float;
                     B64.mkCycle 100000.1%float [] 100000.1%float]))
     = 8000%float.
Proof.
  intros cosine running stopped.
  destruct pause_resume_rebases_clock as (H1 & H2 & _).
  destruct (H1 cosine B64.appDefaults (B64.withPlaying true B64.appDefaults)
              9000.3%float 100000.1%float 50000%float running eq_refl eq_refl)
    as [A B].
  split; [|split].
  - fold stopped in A. rewrite A. vm_compute. reflexivity.
  - fold stopped in B. rewrite B. vm_compute. reflexivity.
  - rewrite (H2 cosine _ (B64.mount cosine B64.appDefaults 10%float) 0%float
               eq_refl eq_refl).
    vm_compute. reflexivity.
Defined.

(** ** The binary64 component: the phase resolver *)













(** ** The binary64 component: the scale *)






(** ** The binary64 component: the smoothed direction *)









